(** * Foodie: the two-tier recommendation resolver

    A shallow embedding of the query resolution engine of the Foodie
    application: the client-side resolvers [getAiFilteredHotspots] and
    [getAiRankedRestaurants] with their local fallback scorers, the
    result processing of [handleSearch], the backend handlers
    [POST /api/ai/filter-hotspots] and [POST /api/ai/rank-restaurants],
    and the service-layer helper [apiRequest].

    Modelling conventions.
    - JavaScript strings are [string]s read as 7-bit ASCII text: a
      character above 127 is neither white space nor changed by
      [toLowerCase].
    - JavaScript numbers used as scores are rationals ([Q]).  Every score
      the scorers build is a sum of the literals 1, 1.5, 2, 3, 4 or the
      literal 0.1, on which double arithmetic and comparison are exact;
      the value of [Math.log] is taken as a parameter.
    - The [Map] used as a cache is a [gmap] from keys to stored values; the
      one-shot timers created by [setTimeout] are kept in the world next to
      a logical clock in milliseconds.
    - A resolver call runs to completion before the next one starts; the
      clock advances by the latency of its request and the timers that
      come due meanwhile fire. *)

From Stdlib Require Import Ascii String QArith Lqa Sorted Permutation.
From stdpp Require Import gmap strings list fin_maps.

Local Open Scope string_scope.

(** ** JavaScript string operations *)

Module JsString.

(** [\s] on ASCII: tab, line feed, vertical tab, form feed, carriage
    return and space. *)
Definition is_space (c : ascii) : bool :=
  let n := N_of_ascii c in
  ((9 <=? n)%N && (n <=? 13)%N) || (n =? 32)%N.

Definition lower_char (c : ascii) : ascii :=
  let n := N_of_ascii c in
  if ((65 <=? n)%N && (n <=? 90)%N) then ascii_of_N (n + 32) else c.

(** [s.toLowerCase()] *)
Fixpoint toLowerCase (s : string) : string :=
  match s with
  | EmptyString => EmptyString
  | String c s' => String (lower_char c) (toLowerCase s')
  end.

(** [s.includes(t)]: [t] occurs in [s] as a contiguous substring. *)
Fixpoint includes (s t : string) : bool :=
  if String.prefix t s then true
  else match s with
       | EmptyString => false
       | String _ s' => includes s' t
       end.

(** [s.split(/\s+/)]: the pieces between maximal runs of white space.
    Leading or trailing white space yields an empty first or last piece,
    and the empty string splits into one empty piece. *)
Fixpoint split_go (skipping : bool) (cur : string) (s : string) : list string :=
  match s with
  | EmptyString => [cur]
  | String c s' =>
      if is_space c then
        if skipping then split_go true EmptyString s'
        else cur :: split_go true EmptyString s'
      else split_go false (cur +:+ String c EmptyString) s'
  end.

Definition split_ws (s : string) : list string := split_go false EmptyString s.

Fixpoint trimStart (s : string) : string :=
  match s with
  | EmptyString => EmptyString
  | String c s' => if is_space c then trimStart s' else s
  end.

Fixpoint rev_string (acc s : string) : string :=
  match s with
  | EmptyString => acc
  | String c s' => rev_string (String c acc) s'
  end.

(** [s.trim()] *)
Definition trim (s : string) : string :=
  rev_string EmptyString (trimStart (rev_string EmptyString (trimStart s))).

(** [s.substring(0, n)] *)
Definition truncate (n : nat) (s : string) : string := String.substring 0 n s.

(** [parts.join(sep)] *)
Definition join (sep : string) (parts : list string) : string := String.concat sep parts.

(** [s.split(/\s+/).filter(w => w.length > 2)] *)
Definition words (s : string) : list string :=
  List.filter (fun w => (2 <? String.length w)%nat) (split_ws s).

(** [s.split(/\s+/)[0]]: never undefined, the split has at least one piece. *)
Definition first_piece (s : string) : string :=
  match split_ws s with
  | [] => EmptyString
  | p :: _ => p
  end.

End JsString.

Import JsString.

(** ** Data model *)

(** The user profile forwarded to the backend. *)
Record Profile := {
  p_name : string;
  p_age : Z;
  p_location : string
}.

(** A hotspot: [{ id, name, address, review_count, tags }].  [tags] and
    [review_count] may be [undefined]; a review count is a natural number. *)
Record Hotspot := {
  h_id : Z;
  h_name : string;
  h_address : string;
  h_review_count : option N;
  h_tags : option (list string)
}.

(** A restaurant: [{ placeId, name, address, cuisine, tags }]. *)
Record Restaurant := {
  r_placeId : string;
  r_name : string;
  r_address : string;
  r_cuisine : string;
  r_tags : option (list string)
}.

(** What the restaurant resolver returns per entry: [{ placeId, reasoning }]. *)
Record Suggestion := {
  sg_placeId : string;
  sg_reasoning : string
}.

(** A scored restaurant of the fallback path:
    [{ placeId, reasoning, score, hasDirectMatch }]. *)
Record Scored := {
  sc_placeId : string;
  sc_reasoning : string;
  sc_score : Q;
  sc_hasDirectMatch : bool
}.

(** A restaurant as the backend returns it: the entity with [aiReasoning]. *)
Record RankedRestaurant := {
  rr_restaurant : Restaurant;
  rr_aiReasoning : option string
}.

(** One element of the AI's restaurant ranking: [{ index, reasoning }]. *)
Record Ranking := {
  rk_index : Z;
  rk_reasoning : option string
}.

#[global] Instance Hotspot_eq_dec : EqDecision Hotspot.
Proof. solve_decision. Defined.

#[global] Instance Restaurant_eq_dec : EqDecision Restaurant.
Proof. solve_decision. Defined.

(** ** [Array.prototype.sort] with a comparator

    The sort is stable, and for a consistent comparator its result is
    fixed by the language: insertion from the right computes it.
    [compareFn a b <= 0] keeps [a] before [b]. *)

Section JsSort.
Context {A : Type} (compareFn : A -> A -> Q).

Fixpoint sort_insert (x : A) (l : list A) : list A :=
  match l with
  | [] => [x]
  | y :: l' =>
      if Qle_bool (compareFn x y) 0 then x :: y :: l'
      else y :: sort_insert x l'
  end.

Definition sort (l : list A) : list A := foldr sort_insert [] l.

(** [a] may stay before [b]. *)
Definition keeps_before (a b : A) : Prop := (compareFn a b <= 0)%Q.

(** Neither of [a] and [b] has to move past the other. *)
Definition tied (a b : A) : bool :=
  Qle_bool (compareFn a b) 0 && Qle_bool (compareFn b a) 0.

End JsSort.

Definition Qlt_bool (x y : Q) : bool := negb (Qle_bool y x).

(** [a.includes(b) || b.includes(a)] *)
Definition either_includes (a b : string) : bool := includes a b || includes b a.

(** ** Fallback scorers *)

Local Open Scope Q_scope.

Section Scoring.

(** [Math.log] on a review count, as the double it returns. *)
Variable Math_log : N -> Q.

(** *** Hotspots: the [catch] block of [getAiFilteredHotspots] *)

(** [h.review_count > n]; [undefined > n] is [false]. *)
Definition review_count_gt (h : Hotspot) (n : N) : bool :=
  match h_review_count h with
  | Some c => (n <? c)%N
  | None => false
  end.

(** [h.review_count || 1] *)
Definition review_count_or_1 (h : Hotspot) : N :=
  match h_review_count h with
  | Some 0%N | None => 1%N
  | Some c => c
  end.

(** The body of [allHotspots.map(h => ...)]: the score given to [h]. *)
Definition hotspot_score (moodWords cravingsWords : list string) (h : Hotspot) : Q :=
  let score := 0 in
  let score :=
    match h_tags h with
    | Some tags =>
        foldl (fun score tag =>
                 let tagLower := toLowerCase tag in
                 let score :=
                   foldl (fun score word =>
                            if either_includes tagLower word then score + 2 else score)
                         score cravingsWords in
                 foldl (fun score word =>
                          if either_includes tagLower word then score + 1.5 else score)
                       score moodWords)
              score tags
    | None => score
    end in
  let nameLower := toLowerCase (h_name h) in
  let score :=
    foldl (fun score word =>
             if includes nameLower word || includes word (first_piece nameLower)
             then score + 3 else score)
          score cravingsWords in
  let score :=
    foldl (fun score word => if includes nameLower word then score + 2 else score)
          score moodWords in
  let score :=
    if review_count_gt h 8000%N then score + 2
    else if review_count_gt h 6000%N then score + 1
    else score in
  if Qeq_bool score 0 then Math_log (review_count_or_1 h) / 10 else score.

(** [(a, b) => b.score - a.score] on [{ ...h, score }] *)
Definition compare_hotspots (a b : Hotspot * Q) : Q := snd b - snd a.

(** The whole fallback: score, sort, strip the score. *)
Definition hotspots_fallback (mood cravings : string) (allHotspots : list Hotspot)
  : list Hotspot :=
  let moodLower := toLowerCase mood in
  let cravingsLower := toLowerCase cravings in
  let moodWords := words moodLower in
  let cravingsWords := words cravingsLower in
  let scored :=
    sort compare_hotspots
         (map (fun h => (h, hotspot_score moodWords cravingsWords h)) allHotspots) in
  map fst scored.

(** The score the fallback gives a hotspot for a query, and the order the
    sort puts two hotspots in. *)
Definition fallback_score_of (mood cravings : string) (h : Hotspot) : Q :=
  hotspot_score (words (toLowerCase mood)) (words (toLowerCase cravings)) h.

Definition by_score_desc (mood cravings : string) (a b : Hotspot) : Q :=
  fallback_score_of mood cravings b - fallback_score_of mood cravings a.

End Scoring.

(** *** Restaurants: the [catch] block of [getAiRankedRestaurants] *)

(** The variables the tag loop updates. *)
Record TagState := {
  ts_score : Q;
  ts_hasDirectMatch : bool;
  ts_matchedTags : list string
}.

(** [if (!matchedTags.includes(tag)) matchedTags.push(tag)] *)
Definition push_unique (tag : string) (matchedTags : list string) : list string :=
  if bool_decide (tag ∈ matchedTags) then matchedTags else matchedTags ++ [tag].

(** The body of [r.tags.forEach(tag => ...)]. *)
Definition score_tag (cravingsLower : string) (moodWords cravingsWords : list string)
    (st : TagState) (tag : string) : TagState :=
  let tagLower := toLowerCase tag in
  let st :=
    foldl (fun st word =>
             if either_includes tagLower word then
               {| ts_score := ts_score st + 3;
                  ts_hasDirectMatch := true;
                  ts_matchedTags := push_unique tag (ts_matchedTags st) |}
             else st)
          st cravingsWords in
  let st :=
    if either_includes tagLower cravingsLower then
      {| ts_score := ts_score st + 4;
         ts_hasDirectMatch := true;
         ts_matchedTags := push_unique tag (ts_matchedTags st) |}
    else st in
  foldl (fun st word =>
           if either_includes tagLower word then
             {| ts_score := ts_score st + 1.5;
                ts_hasDirectMatch := ts_hasDirectMatch st;
                ts_matchedTags := push_unique tag (ts_matchedTags st) |}
           else st)
        st moodWords.

(** The variables of one restaurant's scoring. *)
Record ScoreState := {
  ss_score : Q;
  ss_hasDirectMatch : bool;
  ss_reasoningParts : list string
}.

(** The tag block: [if (r.tags && r.tags.length > 0) { ... }]. *)
Definition score_tags (cravingsLower : string) (moodWords cravingsWords : list string)
    (r : Restaurant) (st : ScoreState) : ScoreState :=
  match r_tags r with
  | Some (t :: ts) =>
      let tst :=
        foldl (score_tag cravingsLower moodWords cravingsWords)
              {| ts_score := ss_score st;
                 ts_hasDirectMatch := ss_hasDirectMatch st;
                 ts_matchedTags := [] |}
              (t :: ts) in
      {| ss_score := ts_score tst;
         ss_hasDirectMatch := ts_hasDirectMatch tst;
         ss_reasoningParts :=
           match ts_matchedTags tst with
           | [] => ss_reasoningParts st
           | _ => ss_reasoningParts st ++ ["serves " +:+ join ", " (ts_matchedTags tst)]
           end |}
  | _ => st
  end.

(** The name block: craving words, then the full craving phrase. *)
Definition score_name (cravingsLower : string) (cravingsWords : list string)
    (r : Restaurant) (st : ScoreState) : ScoreState :=
  let nameLower := toLowerCase (r_name r) in
  let st :=
    foldl (fun st word =>
             if includes nameLower word then
               {| ss_score := ss_score st + 2;
                  ss_hasDirectMatch := true;
                  ss_reasoningParts :=
                    if existsb (fun p => includes p "serves") (ss_reasoningParts st)
                    then ss_reasoningParts st
                    else ss_reasoningParts st ++ ["specializes in " +:+ word] |}
             else st)
          st cravingsWords in
  if includes nameLower cravingsLower then
    {| ss_score := ss_score st + 3;
       ss_hasDirectMatch := true;
       ss_reasoningParts := ss_reasoningParts st |}
  else st.

(** The score and flag once every matching rule has run, before the
    cuisine-keyword rule. *)
Definition score_matches (mood cravings : string) (r : Restaurant) : ScoreState :=
  let moodLower := trim (toLowerCase mood) in
  let cravingsLower := trim (toLowerCase cravings) in
  let moodWords := words moodLower in
  let cravingsWords := words cravingsLower in
  score_name cravingsLower cravingsWords r
    (score_tags cravingsLower moodWords cravingsWords r
       {| ss_score := 0; ss_hasDirectMatch := false; ss_reasoningParts := [] |}).

Definition food_words : list string :=
  ["pizza"; "chinese"; "mexican"; "bbq"; "vegan"; "sushi"; "burger"; "thai";
   "italian"; "spicy"].

(** [if (score === 0 && r.tags) { ... }] *)
Definition score_cuisine (r : Restaurant) (st : ScoreState) : ScoreState :=
  match r_tags r with
  | Some tags =>
      if Qeq_bool (ss_score st) 0 then
        match List.filter
                (fun t => existsb (fun ft => includes (toLowerCase t) ft) food_words)
                tags with
        | [] => st
        | foodTag :: _ =>
            {| ss_score := 0.1;
               ss_hasDirectMatch := ss_hasDirectMatch st;
               ss_reasoningParts := ss_reasoningParts st ++ ["serves " +:+ foodTag] |}
        end
      else st
  | None => st
  end.

(** [let reasoning = r.name; ...] *)
Definition make_reasoning (r : Restaurant) (reasoningParts : list string) : string :=
  match reasoningParts with
  | [] =>
      r_name r +:+ " - " +:+
      match r_tags r with
      | Some (t :: ts) => join ", " (take 2%nat (t :: ts))
      | _ => EmptyString
      end
  | _ => r_name r +:+ " - " +:+ join " & " (take 2%nat reasoningParts)
  end.

(** The body of [allRestaurants.map(r => ...)]. *)
Definition score_restaurant (mood cravings : string) (r : Restaurant) : Scored :=
  let st := score_cuisine r (score_matches mood cravings r) in
  {| sc_placeId := r_placeId r;
     sc_reasoning := make_reasoning r (ss_reasoningParts st);
     sc_score := ss_score st;
     sc_hasDirectMatch := ss_hasDirectMatch st |}.

(** The comparator passed to [.sort]. *)
Definition compare_restaurants (a b : Scored) : Q :=
  if sc_hasDirectMatch a && negb (sc_hasDirectMatch b) then -1
  else if negb (sc_hasDirectMatch a) && sc_hasDirectMatch b then 1
  else sc_score b - sc_score a.

(** [.sort(...).filter(r => r.score > 0)] *)
Definition rank_restaurants (scored : list Scored) : list Scored :=
  List.filter (fun r => Qlt_bool 0 (sc_score r)) (sort compare_restaurants scored).

(** [({ placeId, reasoning }) => ({ placeId, reasoning: reasoning.substring(0, 120) })] *)
Definition to_suggestion (s : Scored) : Suggestion :=
  {| sg_placeId := sc_placeId s; sg_reasoning := truncate 120%nat (sc_reasoning s) |}.

Definition restaurants_fallback (mood cravings : string) (allRestaurants : list Restaurant)
  : list Suggestion :=
  map to_suggestion (rank_restaurants (map (score_restaurant mood cravings) allRestaurants)).

Local Close Scope Q_scope.

(** ** Requests, responses and the world *)

(** The JSON body of a request to the backend. *)
Inductive Payload :=
| HotspotsPayload (mood cravings : string) (profile : option Profile)
    (hotspots : list Hotspot)
| RestaurantsPayload (mood cravings : string) (profile : option Profile)
    (restaurants : list Restaurant).

(** One [fetch] call: the path under [ENV.apiUrl], the body and whether an
    abort signal is attached. *)
Record Request := {
  rq_path : string;
  rq_body : Payload;
  rq_signal : bool
}.

(** What [response.json()] gives: a rejection, or one of the shapes the
    backend sends. *)
Inductive Body :=
| Unparseable
| ErrorBody (error : string) (fallback : bool)
| HotspotsBody (hotspots : list Hotspot)
| RestaurantsBody (restaurants : list RankedRestaurant).

(** How the remote end behaves for one request: the connection fails
    after some time, a response arrives after some time, or nothing
    ever comes back. *)
Inductive Remote :=
| Rejects (after : N)
| Responds (after : N) (status : Z) (body : Body)
| NeverSettles.

(** The errors thrown inside the resolvers' [try] blocks. *)
Inductive Failure :=
| NetworkFailure
| Aborted
| BackendFallback
| BackendFailed (status : Z)
| BadJson.

Inductive FetchResult :=
| FetchRejected (e : Failure)
| FetchResponse (status : Z) (body : Body).

(** [await fetch(url, { signal })]: when it settles and with what.  With a
    signal aborted [abortAfter] ms after the call, a request still in
    flight then rejects with an [AbortError]. *)
Definition fetch (abortAfter : option N) (remote : Remote) : option (N * FetchResult) :=
  match remote, abortAfter with
  | Rejects d, None => Some (d, FetchRejected NetworkFailure)
  | Responds d status body, None => Some (d, FetchResponse status body)
  | NeverSettles, None => None
  | Rejects d, Some a =>
      if (a <=? d)%N then Some (a, FetchRejected Aborted)
      else Some (d, FetchRejected NetworkFailure)
  | Responds d status body, Some a =>
      if (a <=? d)%N then Some (a, FetchRejected Aborted)
      else Some (d, FetchResponse status body)
  | NeverSettles, Some a => Some (a, FetchRejected Aborted)
  end.

(** [response.ok] *)
Definition response_ok (status : Z) : bool := (200 <=? status)%Z && (status <=? 299)%Z.

(** [errorData.fallback] after [response.json().catch(() => ({}))] *)
Definition body_fallback (b : Body) : bool :=
  match b with
  | ErrorBody _ fallback => fallback
  | _ => false
  end.

(** A value stored in the shared cache [Map]. *)
Inductive CacheValue :=
| CachedHotspots (hotspots : list Hotspot)
| CachedSuggestions (suggestions : list Suggestion).

(** The state the resolvers act on: the cache, the pending
    [setTimeout(() => cache.delete(key), ...)] timers with their due times,
    the clock, and the requests sent so far (oldest first). *)
Record World := {
  cache : gmap string CacheValue;
  timers : list (N * string);
  clock : N;
  requests : list Request
}.

Definition initial : World :=
  {| cache := ∅; timers := []; clock := 0%N; requests := [] |}.

(** How an asynchronous call ends. *)
Inductive Completion (E A : Type) :=
| Returned (value : A)
| Threw (error : E)
| Pending.

Arguments Returned {E A} value.
Arguments Threw {E A} error.
Arguments Pending {E A}.

(** Time passes: every timer that has come due deletes its key. *)
Definition elapse (dt : N) (w : World) : World :=
  let t := (clock w + dt)%N in
  {| cache :=
       foldl (fun c '(due, key) => if (due <=? t)%N then delete key c else c)
             (cache w) (timers w);
     timers := List.filter (fun '(due, _) => negb (due <=? t)%N) (timers w);
     clock := t;
     requests := requests w |}.

(** [cache.set(key, value)] *)
Definition cache_set (key : string) (v : CacheValue) (w : World) : World :=
  {| cache := <[key := v]> (cache w);
     timers := timers w; clock := clock w; requests := requests w |}.

(** [setTimeout(() => cache.delete(key), delay)] *)
Definition setTimeout_delete (key : string) (delay : N) (w : World) : World :=
  {| cache := cache w;
     timers := timers w ++ [((clock w + delay)%N, key)];
     clock := clock w; requests := requests w |}.

Definition send (rq : Request) (w : World) : World :=
  {| cache := cache w; timers := timers w; clock := clock w;
     requests := requests w ++ [rq] |}.

(** ** The resolvers *)

(** [result.hotspots || []] and [result.restaurants || []] *)
Definition body_hotspots (result : Body) : list Hotspot :=
  match result with
  | HotspotsBody hotspots => hotspots
  | _ => []
  end.

Definition body_restaurants (result : Body) : list RankedRestaurant :=
  match result with
  | RestaurantsBody restaurants => restaurants
  | _ => []
  end.

(** The [try] block of [getAiFilteredHotspots] once [fetch] has settled. *)
Definition hotspots_try (res : FetchResult) : Failure + list Hotspot :=
  match res with
  | FetchRejected e => inl e
  | FetchResponse status body =>
      if negb (response_ok status) then
        if body_fallback body then inl BackendFallback
        else inl (BackendFailed status)
      else
        match body with
        | Unparseable => inl BadJson
        | result => inr (body_hotspots result)
        end
  end.

(** [r.aiReasoning || `${r.name} - ${r.cuisine}`] *)
Definition reasoning_or_default (r : RankedRestaurant) : string :=
  match rr_aiReasoning r with
  | Some EmptyString | None =>
      r_name (rr_restaurant r) +:+ " - " +:+ r_cuisine (rr_restaurant r)
  | Some reasoning => reasoning
  end.

(** The [try] block of [getAiRankedRestaurants] once [fetch] has settled. *)
Definition restaurants_try (res : FetchResult) : Failure + list Suggestion :=
  match res with
  | FetchRejected e => inl e
  | FetchResponse status body =>
      if negb (response_ok status) then
        if body_fallback body then inl BackendFallback
        else inl (BackendFailed status)
      else
        match body with
        | Unparseable => inl BadJson
        | result =>
            let rankedRestaurants := body_restaurants result in
            inr (map (fun r => {| sg_placeId := r_placeId (rr_restaurant r);
                                  sg_reasoning := reasoning_or_default r |})
                     rankedRestaurants)
        end
  end.

(** [`hotspots-${mood}-${cravings}`] and [`restaurants-${mood}-${cravings}`] *)
Definition hotspots_key (mood cravings : string) : string :=
  "hotspots-" +:+ mood +:+ "-" +:+ cravings.

Definition restaurants_key (mood cravings : string) : string :=
  "restaurants-" +:+ mood +:+ "-" +:+ cravings.

Section Resolvers.

Variable Math_log : N -> Q.

Definition getAiFilteredHotspots (mood cravings : string) (userProfile : option Profile)
    (allHotspots : list Hotspot) (remote : Remote) (w : World)
  : Completion Failure CacheValue * World :=
  let cacheKey := hotspots_key mood cravings in
  match cache w !! cacheKey with
  | Some cached => (Returned cached, w)
  | None =>
      let w := send {| rq_path := "/ai/filter-hotspots";
                       rq_body := HotspotsPayload mood cravings userProfile allHotspots;
                       rq_signal := false |} w in
      match fetch None remote with
      | None => (Pending, w)
      | Some (dt, res) =>
          let w := elapse dt w in
          match hotspots_try res with
          | inr filteredHotspots =>
              let w := cache_set cacheKey (CachedHotspots filteredHotspots) w in
              let w := setTimeout_delete cacheKey 300000 w in
              (Returned (CachedHotspots filteredHotspots), w)
          | inl _ =>
              let filtered := hotspots_fallback Math_log mood cravings allHotspots in
              let w := cache_set cacheKey (CachedHotspots filtered) w in
              (Returned (CachedHotspots filtered), w)
          end
      end
  end.

Definition getAiRankedRestaurants (mood cravings : string) (userProfile : option Profile)
    (allRestaurants : list Restaurant) (remote : Remote) (w : World)
  : Completion Failure CacheValue * World :=
  let cacheKey := restaurants_key mood cravings in
  match cache w !! cacheKey with
  | Some cached => (Returned cached, w)
  | None =>
      let w := send {| rq_path := "/ai/rank-restaurants";
                       rq_body := RestaurantsPayload mood cravings userProfile allRestaurants;
                       rq_signal := false |} w in
      match fetch None remote with
      | None => (Pending, w)
      | Some (dt, res) =>
          let w := elapse dt w in
          match restaurants_try res with
          | inr suggestions =>
              let w := cache_set cacheKey (CachedSuggestions suggestions) w in
              let w := setTimeout_delete cacheKey 300000 w in
              (Returned (CachedSuggestions suggestions), w)
          | inl _ =>
              let suggestions := restaurants_fallback mood cravings allRestaurants in
              let w := cache_set cacheKey (CachedSuggestions suggestions) w in
              (Returned (CachedSuggestions suggestions), w)
          end
      end
  end.

(** The candidate list of one resolution; its constructor is the kind. *)
Inductive Candidates :=
| HotspotCandidates (allHotspots : list Hotspot)
| RestaurantCandidates (allRestaurants : list Restaurant).

Inductive Kind := hotspot | restaurant.

Definition kind_of (c : Candidates) : Kind :=
  match c with
  | HotspotCandidates _ => hotspot
  | RestaurantCandidates _ => restaurant
  end.

(** The cache key of a signature [(kind, mood, cravings)]. *)
Definition signature_key (k : Kind) (mood cravings : string) : string :=
  match k with
  | hotspot => hotspots_key mood cravings
  | restaurant => restaurants_key mood cravings
  end.

(** One resolution of either kind. *)
Definition resolve (c : Candidates) (mood cravings : string) (userProfile : option Profile)
    (remote : Remote) (w : World) : Completion Failure CacheValue * World :=
  match c with
  | HotspotCandidates allHotspots =>
      getAiFilteredHotspots mood cravings userProfile allHotspots remote w
  | RestaurantCandidates allRestaurants =>
      getAiRankedRestaurants mood cravings userProfile allRestaurants remote w
  end.

(** What the local scorer returns for a resolution. *)
Definition fallback_value (c : Candidates) (mood cravings : string) : CacheValue :=
  match c with
  | HotspotCandidates allHotspots =>
      CachedHotspots (hotspots_fallback Math_log mood cravings allHotspots)
  | RestaurantCandidates allRestaurants =>
      CachedSuggestions (restaurants_fallback mood cravings allRestaurants)
  end.

(** What can happen to the world, one thing at a time: time passes, or a
    resolution runs against some behaviour of the remote end. *)
Inductive Event :=
| Elapse (dt : N)
| Resolve (c : Candidates) (mood cravings : string) (userProfile : option Profile)
    (remote : Remote).

Definition step (w : World) (e : Event) : World :=
  match e with
  | Elapse dt => elapse dt w
  | Resolve c mood cravings userProfile remote =>
      snd (resolve c mood cravings userProfile remote w)
  end.

Definition run (events : list Event) (w : World) : World := foldl step w events.

(** The worlds the application can be in. *)
Definition reachable (w : World) : Prop := exists events, w = run events initial.

End Resolvers.

(** ** The backend handlers

    What the generative model does for one prompt: the call throws, the
    text holds no array, the array is not JSON, or it parses. *)
Inductive AiReply (A : Type) :=
| GenerationFails
| NoArrayInText
| ArrayNotJson
| Parsed (value : A).

Arguments GenerationFails {A}.
Arguments NoArrayInText {A}.
Arguments ArrayNotJson {A}.
Arguments Parsed {A} value.

(** A handler's answer: status, body, and whether [generateContent] ran. *)
Record Handled := {
  hd_status : Z;
  hd_body : Body;
  hd_generated : bool
}.

(** [i >= 0 && i < list.length] *)
Definition index_in_range {A : Type} (l : list A) (i : Z) : bool :=
  (0 <=? i)%Z && (i <? Z.of_nat (length l))%Z.

(** [l[i]] for an integer [i] *)
Definition at_index {A : Type} (l : list A) (i : Z) : option A := l !! Z.to_nat i.

(** [app.post('/api/ai/filter-hotspots', ...)].  Building the prompt calls
    [h.tags.join], which throws on a hotspot without tags. *)
Definition filter_hotspots_handler (mood cravings : string) (profile : option Profile)
    (hotspots : list Hotspot) (ai : AiReply (list Z)) : Handled :=
  if bool_decide (mood = EmptyString) || bool_decide (cravings = EmptyString)
     || bool_decide (profile = None) then
    {| hd_status := 400; hd_body := ErrorBody "Missing required fields" false;
       hd_generated := false |}
  else if bool_decide (hotspots = []) then
    {| hd_status := 400; hd_body := ErrorBody "Invalid hotspots data" false;
       hd_generated := false |}
  else if existsb (fun h => bool_decide (h_tags h = None)) hotspots then
    {| hd_status := 500; hd_body := ErrorBody "Failed to filter hotspots" true;
       hd_generated := false |}
  else
    match ai with
    | Parsed indices =>
        let filteredHotspots :=
          omap (at_index hotspots) (List.filter (index_in_range hotspots) indices) in
        {| hd_status := 200; hd_body := HotspotsBody filteredHotspots;
           hd_generated := true |}
    | _ =>
        {| hd_status := 500; hd_body := ErrorBody "Failed to filter hotspots" true;
           hd_generated := true |}
    end.

(** [app.post('/api/ai/rank-restaurants', ...)] *)
Definition rank_restaurants_handler (mood cravings : string) (profile : option Profile)
    (restaurants : list Restaurant) (ai : AiReply (list Ranking)) : Handled :=
  if bool_decide (mood = EmptyString) || bool_decide (cravings = EmptyString)
     || bool_decide (profile = None) then
    {| hd_status := 400; hd_body := ErrorBody "Missing required fields" false;
       hd_generated := false |}
  else if bool_decide (restaurants = []) then
    {| hd_status := 400; hd_body := ErrorBody "Invalid restaurants data" false;
       hd_generated := false |}
  else if existsb (fun r => bool_decide (r_tags r = None)) restaurants then
    {| hd_status := 500; hd_body := ErrorBody "Failed to rank restaurants" true;
       hd_generated := false |}
  else
    match ai with
    | Parsed rankings =>
        let rankedRestaurants :=
          omap (fun r => (fun e => {| rr_restaurant := e;
                                      rr_aiReasoning := rk_reasoning r |})
                         <$> at_index restaurants (rk_index r))
               (List.filter (fun r => index_in_range restaurants (rk_index r)) rankings) in
        {| hd_status := 200; hd_body := RestaurantsBody rankedRestaurants;
           hd_generated := true |}
    | _ =>
        {| hd_status := 500; hd_body := ErrorBody "Failed to rank restaurants" true;
           hd_generated := true |}
    end.

(** The routes of the server.  A body of the other kind lacks the list
    the handler reads, which the first validation rejects; any other path
    ends in the 404 handler. *)
Definition route (aiHotspots : AiReply (list Z)) (aiRestaurants : AiReply (list Ranking))
    (rq : Request) : Handled :=
  if bool_decide (rq_path rq = "/ai/filter-hotspots") then
    match rq_body rq with
    | HotspotsPayload mood cravings profile hotspots =>
        filter_hotspots_handler mood cravings profile hotspots aiHotspots
    | RestaurantsPayload _ _ _ _ =>
        {| hd_status := 400; hd_body := ErrorBody "Missing required fields" false;
           hd_generated := false |}
    end
  else if bool_decide (rq_path rq = "/ai/rank-restaurants") then
    match rq_body rq with
    | RestaurantsPayload mood cravings profile restaurants =>
        rank_restaurants_handler mood cravings profile restaurants aiRestaurants
    | HotspotsPayload _ _ _ _ =>
        {| hd_status := 400; hd_body := ErrorBody "Missing required fields" false;
           hd_generated := false |}
    end
  else
    {| hd_status := 404; hd_body := ErrorBody "Endpoint not found" false;
       hd_generated := false |}.

(** The remote end when it is this repository's backend, answering after
    [latency] ms. *)
Definition backend (latency : N) (aiHotspots : AiReply (list Z))
    (aiRestaurants : AiReply (list Ranking)) (rq : Request) : Remote :=
  let h := route aiHotspots aiRestaurants rq in
  Responds latency (hd_status h) (hd_body h).

(** ** Result processing in [handleSearch] *)

(** [new Map(allRestaurants.map(r => [r.placeId, r]))]: a later entry with
    the same key replaces an earlier one. *)
Definition restaurantMap (allRestaurants : list Restaurant) : gmap string Restaurant :=
  foldl (fun m r => <[r_placeId r := r]> m) ∅ allRestaurants.

(** [Object.fromEntries(suggestions.map(r => [r.placeId, r.reasoning]))] *)
Definition aiReasoningMap (suggestions : list Suggestion) : gmap string string :=
  foldl (fun m s => <[sg_placeId s := sg_reasoning s]> m) ∅ suggestions.

(** [suggestions.map(r => restaurantMap.get(r.placeId)).filter(Boolean)] *)
Definition filteredRestaurants (suggestions : list Suggestion)
    (allRestaurants : list Restaurant) : list Restaurant :=
  omap (fun s => restaurantMap allRestaurants !! sg_placeId s) suggestions.

(** The suggestions in a resolver's result. *)
Definition suggestions_of (v : CacheValue) : list Suggestion :=
  match v with
  | CachedSuggestions l => l
  | CachedHotspots _ => []
  end.

Definition hotspots_of (v : CacheValue) : list Hotspot :=
  match v with
  | CachedHotspots l => l
  | CachedSuggestions _ => []
  end.

(** ** The service layer: [apiRequest] of [services/api.js] *)

(** [new APIError(message, status, data)]; [ae_data] is [None] for [{}]. *)
Record APIError := {
  ae_status : Z;
  ae_data : option Body
}.

(** What [apiRequest] meets on the wire.  [await fetch(...)] settles as
    [ex_remote] says, a response counting from the moment its status line
    and headers are in; [response.json()] settles [ex_body_after] ms
    later, or never when the body is never read to its end. *)
Record Exchange := {
  ex_remote : Remote;
  ex_body_after : option N
}.

(** A remote end whose body comes together with the headers. *)
Definition at_once (remote : Remote) : Exchange :=
  {| ex_remote := remote; ex_body_after := Some 0%N |}.

Coercion at_once : Remote >-> Exchange.

(** [apiRequest(endpoint, { method: 'POST', body })].  The request carries
    the signal of a controller aborted after 10000 ms; [clearTimeout]
    cancels that abort as soon as [fetch] has settled, so
    [handleResponse] awaits [response.json()] with nothing to stop it. *)
Definition apiRequest (endpoint : string) (body : Payload) (x : Exchange) (w : World)
  : Completion APIError Body * World :=
  let w := send {| rq_path := endpoint; rq_body := body; rq_signal := true |} w in
  match fetch (Some 10000%N) (ex_remote x) with
  | None => (Pending, w)
  | Some (dt, res) =>
      let w := elapse dt w in
      match res with
      | FetchResponse status b =>
          match ex_body_after x with
          | None => (Pending, w)
          | Some rest =>
              let w := elapse rest w in
              if negb (response_ok status) then
                (Threw {| ae_status := status;
                          ae_data := match b with Unparseable => None | _ => Some b end |},
                 w)
              else
                match b with
                | Unparseable => (Threw {| ae_status := 0; ae_data := None |}, w)
                | _ => (Returned b, w)
                end
          end
      | FetchRejected Aborted =>
          (Threw {| ae_status := 408; ae_data := None |}, w)
      | FetchRejected _ =>
          (Threw {| ae_status := 0; ae_data := None |}, w)
      end
  end.

(** [api.filterHotspots] and [api.rankRestaurants] *)
Definition api_filterHotspots (mood cravings : string) (profile : option Profile)
    (hotspots : list Hotspot) : Exchange -> World -> Completion APIError Body * World :=
  apiRequest "/ai/filter-hotspots" (HotspotsPayload mood cravings profile hotspots).

Definition api_rankRestaurants (mood cravings : string) (profile : option Profile)
    (restaurants : list Restaurant) : Exchange -> World -> Completion APIError Body * World :=
  apiRequest "/ai/rank-restaurants" (RestaurantsPayload mood cravings profile restaurants).

(** ** Vocabulary for the ranking and scoring statements *)



(** [r.score > 0] *)
Definition positive_score (r : Scored) : bool := Qlt_bool 0 (sc_score r).

(** The number of elements of a list, as a score multiplier. *)
Definition count {X : Type} (l : list X) : Q := inject_Z (Z.of_nat (length l)).

(** [r.tags], read as empty when absent. *)
Definition tags_of (r : Restaurant) : list string :=
  match r_tags r with
  | Some tags => tags
  | None => []
  end.

(** The (tag, word) pairs in which the lower-cased tag contains the word
    or the word contains the tag. *)
Definition matching_pairs (tags ws : list string) : list (string * string) :=
  List.filter (fun p => either_includes (toLowerCase (fst p)) (snd p)) (list_prod tags ws).

(** The tags that contain the phrase or are contained in it. *)
Definition phrase_tags (phrase : string) (tags : list string) : list string :=
  List.filter (fun tag => either_includes (toLowerCase tag) phrase) tags.

(** The words present in the lower-cased name. *)
Definition words_in_name (name : string) (ws : list string) : list string :=
  List.filter (fun w => includes (toLowerCase name) w) ws.

Definition craving_words (cravings : string) : list string :=
  words (trim (toLowerCase cravings)).

Definition mood_words (mood : string) : list string :=
  words (trim (toLowerCase mood)).

Definition craving_phrase (cravings : string) : string := trim (toLowerCase cravings).

(** The accumulated score of the restaurant scorer, rule by rule. *)
Definition matching_sum (mood cravings : string) (r : Restaurant) : Q :=
  (3 * count (matching_pairs (tags_of r) (craving_words cravings))
   + 1.5 * count (matching_pairs (tags_of r) (mood_words mood))
   + 4 * count (phrase_tags (craving_phrase cravings) (tags_of r))
   + 2 * count (words_in_name (r_name r) (craving_words cravings))
   + (if includes (toLowerCase (r_name r)) (craving_phrase cravings) then 3 else 0))%Q.

(** The sum as the scoring rules are worded for both kinds of candidate:
    2 per (tag, craving word) pair, 1.5 per (tag, mood word) pair, 3 per
    craving word in the name, 2 per mood word in the name, 4 for the
    phrase against a tag, 3 for the phrase in the name. *)
Definition worded_sum (mood cravings : string) (r : Restaurant) : Q :=
  (2 * count (matching_pairs (tags_of r) (craving_words cravings))
   + 1.5 * count (matching_pairs (tags_of r) (mood_words mood))
   + 3 * count (words_in_name (r_name r) (craving_words cravings))
   + 2 * count (words_in_name (r_name r) (mood_words mood))
   + 4 * count (phrase_tags (craving_phrase cravings) (tags_of r))
   + (if includes (toLowerCase (r_name r)) (craving_phrase cravings) then 3 else 0))%Q.

(** Some tag names one of the fixed cuisine words. *)
Definition has_food_tag (r : Restaurant) : bool :=
  existsb (fun t => existsb (fun ft => includes (toLowerCase t) ft) food_words) (tags_of r).

(** ** Vocabulary for the cache statements *)

(** The common shape of the two resolvers: look the key up; on a miss send
    the request, wait for it to settle, store and return either the remote
    result (with a deletion timer) or the local one (without). *)
Definition resolver_shape (cacheKey : string) (rq : Request)
    (tried : FetchResult -> Failure + CacheValue) (local : CacheValue)
    (remote : Remote) (w : World) : Completion Failure CacheValue * World :=
  match cache w !! cacheKey with
  | Some cached => (Returned cached, w)
  | None =>
      let w := send rq w in
      match fetch None remote with
      | None => (Pending, w)
      | Some (dt, res) =>
          let w := elapse dt w in
          match tried res with
          | inr v => (Returned v, setTimeout_delete cacheKey 300000 (cache_set cacheKey v w))
          | inl _ => (Returned local, cache_set cacheKey local w)
          end
      end
  end.

(** The request a resolution sends. *)
Definition request_of (c : Candidates) (mood cravings : string)
    (userProfile : option Profile) : Request :=
  match c with
  | HotspotCandidates allHotspots =>
      {| rq_path := "/ai/filter-hotspots";
         rq_body := HotspotsPayload mood cravings userProfile allHotspots;
         rq_signal := false |}
  | RestaurantCandidates allRestaurants =>
      {| rq_path := "/ai/rank-restaurants";
         rq_body := RestaurantsPayload mood cravings userProfile allRestaurants;
         rq_signal := false |}
  end.

(** The [try] block of a resolution. *)
Definition tried_of (k : Kind) (res : FetchResult) : Failure + CacheValue :=
  match k with
  | hotspot =>
      match hotspots_try res with
      | inl e => inl e
      | inr l => inr (CachedHotspots l)
      end
  | restaurant =>
      match restaurants_try res with
      | inl e => inl e
      | inr l => inr (CachedSuggestions l)
      end
  end.

(** Every pending timer guards a key that is in the cache, and no key has
    two timers. *)
Definition timers_tracked (w : World) : Prop :=
  NoDup (map snd (timers w))
  /\ forall due key, In (due, key) (timers w) -> is_Some (cache w !! key).

(** The entry [v] under [key] is in place and no timer can delete it
    before [deadline]. *)
Definition entry_held (key : string) (v : CacheValue) (deadline : N) (w : World) : Prop :=
  cache w !! key = Some v
  /\ forall due, In (due, key) (timers w) -> (deadline <= due)%N.

(** The remote call fails: the connection fails, the status is not a
    success, or the body of a success response does not parse. *)
Definition remote_fails (remote : Remote) : Prop :=
  match remote with
  | Rejects _ => True
  | Responds _ status body => response_ok status = false \/ body = Unparseable
  | NeverSettles => False
  end.

(** What [handleSearch] hands to the UI from a resolver's result:
    [setFilteredHotspots(filteredHotspots || [])] and
    [setRankedRestaurants(filteredRestaurants || [])]. *)
Definition delivered_hotspots (result : Completion Failure CacheValue) : list Hotspot :=
  match result with
  | Returned v => hotspots_of v
  | _ => []
  end.

Definition delivered_restaurants (result : Completion Failure CacheValue)
    (allRestaurants : list Restaurant) : list Restaurant :=
  match result with
  | Returned v => filteredRestaurants (suggestions_of v) allRestaurants
  | _ => []
  end.

(** An empty candidate list of either kind, and the empty result. *)
Definition no_candidates (k : Kind) : Candidates :=
  match k with
  | hotspot => HotspotCandidates []
  | restaurant => RestaurantCandidates []
  end.

Definition empty_result (k : Kind) : CacheValue :=
  match k with
  | hotspot => CachedHotspots []
  | restaurant => CachedSuggestions []
  end.


(** ** Sample data, from the mock lists of the application *)

(** A stand-in for [Math.log]: 0.7 per binary digit. *)
Definition log_approx (n : N) : Q := (inject_Z (Z.of_N (N.log2 n)) * 0.7)%Q.

Definition sample_profile : Profile :=
  {| p_name := "Ada"; p_age := 30; p_location := "Brooklyn, NY" |}.

Definition williamsburg : Hotspot :=
  {| h_id := 1; h_name := "Williamsburg Waterfront";
     h_address := "Williamsburg, Brooklyn, NY"; h_review_count := Some 9500%N;
     h_tags := Some ["pizza"; "brunch"; "bars"; "trendy"; "views"] |}.

Definition greenpoint : Hotspot :=
  {| h_id := 3; h_name := "Greenpoint";
     h_address := "Greenpoint, Brooklyn, NY"; h_review_count := Some 6100%N;
     h_tags := Some ["polish"; "donuts"; "cozy"; "pierogis"] |}.

Definition pronto : Restaurant :=
  {| r_placeId := "ChIJb8R-mDeuEmsR9a-Gq-g"; r_name := "Pronto Pizza";
     r_address := "789 Atlantic Ave, Brooklyn, NY"; r_cuisine := "Pizza";
     r_tags := Some ["pizza"; "quick"; "cheap"; "classic"] |}.

Definition verdure : Restaurant :=
  {| r_placeId := "ChIJf8R-mDeuEmsR9a-Gq-h"; r_name := "Verdure";
     r_address := "321 Smith St, Brooklyn, NY"; r_cuisine := "Vegan";
     r_tags := Some ["vegan"; "healthy"; "upscale"; "modern"] |}.

(** The model ranks restaurant 0 twice. *)
Definition twice_first : AiReply (list Ranking) :=
  Parsed [ {| rk_index := 0; rk_reasoning := Some "Great pizza" |};
           {| rk_index := 0; rk_reasoning := Some "Quick and cheap" |} ].

(** The remote end answers 500 with the fallback flag after 80 ms. *)
Definition answers_fallback : Remote :=
  Responds 80 500 (ErrorBody "Failed to filter hotspots" true).

(** The world after a hotspot resolution for ("happy", "pizza") over
    [williamsburg] whose request failed after 50 ms. *)
Definition after_failed_call : World :=
  snd (resolve log_approx (HotspotCandidates [williamsburg]) "happy" "pizza"
         (Some sample_profile) (Rejects 50) initial).

(** The world after the same resolution answered by the remote end with
    [greenpoint] after 50 ms. *)
Definition after_remote_call : World :=
  snd (resolve log_approx (HotspotCandidates [williamsburg]) "happy" "pizza"
         (Some sample_profile) (Responds 50 200 (HotspotsBody [greenpoint])) initial).

(** ** Input validation: [utils/validation.js]

    The validators take a string; [!input] is then the test for the empty
    string. *)

(** [s.replace(/[<>]/g, '')] and the like: drop the characters in [p]. *)
Fixpoint remove_chars (p : ascii -> bool) (s : string) : string :=
  match s with
  | EmptyString => EmptyString
  | String c s' => if p c then remove_chars p s' else String c (remove_chars p s')
  end.

(** Every character of [s] is in [p]. *)
Fixpoint all_chars (p : ascii -> bool) (s : string) : bool :=
  match s with
  | EmptyString => true
  | String c s' => p c && all_chars p s'
  end.

(** [[<>]] *)
Definition is_angle (c : ascii) : bool :=
  (N_of_ascii c =? 60)%N || (N_of_ascii c =? 62)%N.

(** [[a-zA-Z\s'-]] *)
Definition is_name_char (c : ascii) : bool :=
  let n := N_of_ascii c in
  ((97 <=? n)%N && (n <=? 122)%N) || ((65 <=? n)%N && (n <=? 90)%N)
  || is_space c || (n =? 39)%N || (n =? 45)%N.

Definition validateName (name : string) : bool :=
  if bool_decide (name = EmptyString) then false
  else
    let trimmed := trim name in
    if (String.length trimmed <? 2)%nat || (50 <? String.length trimmed)%nat then false
    else all_chars is_name_char trimmed.

Definition validateLocation (location : string) : bool :=
  if bool_decide (location = EmptyString) then false
  else
    let trimmed := trim location in
    (3 <=? String.length trimmed)%nat && (String.length trimmed <=? 100)%nat.

(** [/<script|javascript:|onerror|onclick/i] *)
Definition dangerous (s : string) : bool :=
  existsb (includes (toLowerCase s)) ["<script"; "javascript:"; "onerror"; "onclick"].

Definition validateSearchInput (input : string) : bool :=
  if bool_decide (input = EmptyString) then false
  else
    let trimmed := trim input in
    if (String.length trimmed <? 2)%nat || (100 <? String.length trimmed)%nat then false
    else negb (dangerous trimmed).

Definition sanitizeInput (input : string) : string :=
  if bool_decide (input = EmptyString) then EmptyString
  else truncate 200 (remove_chars is_angle (trim input)).

Definition validateGroupName (name : string) : bool :=
  if bool_decide (name = EmptyString) then false
  else
    let trimmed := trim name in
    (3 <=? String.length trimmed)%nat && (String.length trimmed <=? 50)%nat.

Definition validateReviewText (text : string) : bool :=
  if bool_decide (text = EmptyString) then false
  else
    let trimmed := trim text in
    (10 <=? String.length trimmed)%nat && (String.length trimmed <=? 1000)%nat.

(** ** Candidate acquisition: [getRealHotspotData], [getRealRestaurantData]

    A place of the Places search, with the fields the conversions read
    for the attributes kept in [Hotspot] and [Restaurant]; every place
    has its geometry. *)
Record Place := {
  pl_place_id : string;
  pl_name : string;
  pl_vicinity : option string;
  pl_user_ratings_total : option N;
  pl_types : option (list string);
  pl_price_level : option N
}.

(** What the Google calls of one acquisition come to: the Maps script is
    missing, geocoding throws or finds nothing, the search fails, or it
    returns places. *)
Inductive PlacesOutcome :=
| MapsUnavailable
| GeocodeThrows
| GeocodeEmpty
| SearchFails
| SearchOk (results : list Place).

(** [s.split(',')[0]] *)
Fixpoint before_comma (s : string) : string :=
  match s with
  | EmptyString => EmptyString
  | String c s' =>
      if (N_of_ascii c =? 44)%N then EmptyString else String c (before_comma s')
  end.

(** [place.vicinity?.split(',')[0] || place.name] *)
Definition neighborhood_of (p : Place) : string :=
  match pl_vicinity p with
  | Some v =>
      match before_comma v with
      | EmptyString => pl_name p
      | n => n
      end
  | None => pl_name p
  end.

(** The value kept per neighborhood: [{ places, totalReviews, types }],
    [types] being a [Set] in insertion order. *)
Record Neighborhood := {
  nb_places : list Place;
  nb_totalReviews : N;
  nb_types : list string
}.

(** [set.add(t)] *)
Definition set_add (types : list string) (t : string) : list string :=
  if bool_decide (t ∈ types) then types else types ++ [t].

(** The statements after [neighborhoods.get(neighborhood)]. *)
Definition add_place (p : Place) (data : Neighborhood) : Neighborhood :=
  {| nb_places := nb_places data ++ [p];
     nb_totalReviews := (nb_totalReviews data + default 0 (pl_user_ratings_total p))%N;
     nb_types := foldl set_add (nb_types data) (default [] (pl_types p)) |}.

Definition new_neighborhood : Neighborhood :=
  {| nb_places := []; nb_totalReviews := 0%N; nb_types := [] |}.

(** One step of the [forEach] over the places, on the [Map] kept as its
    entries in insertion order. *)
Fixpoint group_place (key : string) (p : Place) (m : list (string * Neighborhood))
  : list (string * Neighborhood) :=
  match m with
  | [] => [(key, add_place p new_neighborhood)]
  | (k, data) :: m' =>
      if bool_decide (k = key) then (k, add_place p data) :: m'
      else (k, data) :: group_place key p m'
  end.

(** [t.replace(/_/g, ' ')] *)
Fixpoint underscores_to_spaces (s : string) : string :=
  match s with
  | EmptyString => EmptyString
  | String c s' =>
      String (if (N_of_ascii c =? 95)%N then " "%char else c) (underscores_to_spaces s')
  end.

(** The hotspot built from entry [idx] of the map. *)
Definition hotspot_of_entry (location : string) (idx : nat) (e : string * Neighborhood)
  : Hotspot :=
  {| h_id := Z.of_nat idx + 1;
     h_name := fst e;
     h_address :=
       match nb_places (snd e) with
       | p :: _ =>
           match pl_vicinity p with
           | Some EmptyString | None => location
           | Some v => v
           end
       | [] => location
       end;
     h_review_count := Some (nb_totalReviews (snd e));
     h_tags :=
       Some (take 5
               (map underscores_to_spaces
                  (List.filter
                     (fun t => negb (bool_decide (t = "point_of_interest"))
                               && negb (bool_decide (t = "establishment")))
                     (nb_types (snd e))))) |}.

(** [a.review_count] as a number; every hotspot built here has one. *)
Definition review_count_num (h : Hotspot) : Q :=
  match h_review_count h with
  | Some c => inject_Z (Z.of_N c)
  | None => 0
  end.

(** [(a, b) => b.review_count - a.review_count] *)
Definition compare_review_count (a b : Hotspot) : Q :=
  (review_count_num b - review_count_num a)%Q.

(** The [try] block of [getRealHotspotData] from the search results on. *)
Definition places_to_hotspots (location : string) (results : list Place) : list Hotspot :=
  let neighborhoods :=
    foldl (fun m p => group_place (neighborhood_of p) p m) [] (take 40 results) in
  take 15 (sort compare_review_count (imap (hotspot_of_entry location) neighborhoods)).

Definition getMockHotspotData : list Hotspot :=
  [ williamsburg;
    {| h_id := 2; h_name := "Downtown Brooklyn"; h_address := "Downtown, Brooklyn, NY";
       h_review_count := Some 8200%N;
       h_tags := Some ["food hall"; "quick eats"; "cheesecake"; "shopping"] |};
    greenpoint;
    {| h_id := 4; h_name := "Bushwick"; h_address := "Bushwick, Brooklyn, NY";
       h_review_count := Some 7300%N;
       h_tags := Some ["tacos"; "vegan"; "breweries"; "latin"; "art"] |};
    {| h_id := 5; h_name := "Park Slope"; h_address := "Park Slope, Brooklyn, NY";
       h_review_count := Some 5500%N;
       h_tags := Some ["family"; "ice cream"; "thai"; "italian"; "cozy"] |};
    {| h_id := 6; h_name := "DUMBO"; h_address := "DUMBO, Brooklyn, NY";
       h_review_count := Some 9100%N;
       h_tags := Some ["pizza"; "ice cream"; "views"; "expensive"; "lobster"] |};
    {| h_id := 7; h_name := "Sunset Park (Chinatown)";
       h_address := "Sunset Park, Brooklyn, NY"; h_review_count := Some 7900%N;
       h_tags := Some ["dim sum"; "chinese"; "vietnamese"; "spicy"; "authentic"] |};
    {| h_id := 9; h_name := "Flushing, Queens"; h_address := "Flushing, Queens, NY";
       h_review_count := Some 12500%N;
       h_tags := Some ["authentic"; "chinese"; "korean"; "spicy"; "hot pot"; "food court"] |};
    {| h_id := 10; h_name := "East Village"; h_address := "East Village, Manhattan, NY";
       h_review_count := Some 11000%N;
       h_tags := Some ["japanese"; "ramen"; "bars"; "noodles"; "ukrainian"] |} ].

Definition getRealHotspotData (location : string) (google : PlacesOutcome) : list Hotspot :=
  match google with
  | SearchOk results =>
      match places_to_hotspots location results with
      | [] => getMockHotspotData
      | hotspots => hotspots
      end
  | _ => getMockHotspotData
  end.

(** ['$'.repeat(n)] *)
Fixpoint dollars (n : nat) : string :=
  match n with
  | O => EmptyString
  | S n' => String "$"%char (dollars n')
  end.

Definition upper_char (c : ascii) : ascii :=
  let n := N_of_ascii c in
  if ((97 <=? n)%N && (n <=? 122)%N) then ascii_of_N (n - 32) else c.

(** [t.charAt(0).toUpperCase() + t.slice(1)] *)
Definition capitalize (t : string) : string :=
  match t with
  | EmptyString => EmptyString
  | String c t' => String (upper_char c) t'
  end.

(** The body of [results.slice(0, 30).map(place => ...)]. *)
Definition restaurant_of_place (place : Place) : Restaurant :=
  let tags :=
    match pl_types place with
    | Some types =>
        take 4
          (map underscores_to_spaces
             (List.filter
                (fun t => negb (bool_decide
                                  (t ∈ ["point_of_interest"; "establishment"; "food"])))
                types))
    | None => []
    end in
  let tags :=
    match pl_price_level place with
    | Some 0%N | None => tags
    | Some n => (tags ++ [dollars (N.to_nat n)])%list
    end in
  let cuisine :=
    match tags with
    | [] => "Restaurant"
    | t :: _ => capitalize t
    end in
  {| r_placeId := pl_place_id place;
     r_name := pl_name place;
     r_address := default EmptyString (pl_vicinity place);
     r_cuisine := cuisine;
     r_tags := Some tags |}.

Definition places_to_restaurants (results : list Place) : list Restaurant :=
  map restaurant_of_place (take 30 results).

(** The mock list; [location] is not used. *)
Definition getMockGooglePlacesData (location : string) : list Restaurant :=
  [ {| r_placeId := "ChIJN1t_tDeuEmsRUsoyG83frY4"; r_name := "The Cozy Corner";
       r_address := "123 Main St, Brooklyn, NY"; r_cuisine := "American";
       r_tags := Some ["comfort food"; "cozy"; "american"; "bistro"] |};
    {| r_placeId := "ChIJU-P-mDeuEmsR5d-Gq-g"; r_name := "Spicy Dragon";
       r_address := "456 Flatbush Ave, Brooklyn, NY"; r_cuisine := "Chinese";
       r_tags := Some ["spicy"; "chinese"; "sichuan"; "adventurous"] |};
    pronto;
    verdure;
    {| r_placeId := "ChIJe8R-mDeuEmsR9a-Gq-i"; r_name := "El Toro Loco";
       r_address := "654 Court St, Brooklyn, NY"; r_cuisine := "Mexican";
       r_tags := Some ["mexican"; "tacos"; "lively"; "fun"; "groups"] |};
    {| r_placeId := "ChIJN1t_tDeuEmsRUsoyG83frY5"; r_name := "Grimaldi's Pizza";
       r_address := "1 Front St, Brooklyn, NY"; r_cuisine := "Pizza";
       r_tags := Some ["pizza"; "views"; "expensive"; "classic"] |};
    {| r_placeId := "ChIJU-P-mDeuEmsR5d-Gq-h"; r_name := "Joe's Steam Rice Roll";
       r_address := "40-02 138th St, Flushing, NY"; r_cuisine := "Chinese";
       r_tags := Some ["chinese"; "authentic"; "quick eats"; "food court"] |};
    {| r_placeId := "ChIJb8R-mDeuEmsR9a-Gq-j"; r_name := "Hometown Bar-B-Que";
       r_address := "454 Van Brunt St, Brooklyn, NY"; r_cuisine := "BBQ";
       r_tags := Some ["bbq"; "seafood"; "american"; "views"] |} ].

Definition getRealRestaurantData (location : string) (google : PlacesOutcome)
  : list Restaurant :=
  match google with
  | SearchOk results =>
      match places_to_restaurants results with
      | [] => getMockGooglePlacesData location
      | restaurants => restaurants
      end
  | _ => getMockGooglePlacesData location
  end.

(** ** Vocabulary for the further properties *)

(** [s] is white space only. *)
Definition all_space (s : string) : Prop := all_chars is_space s = true.

(** No character of [s] is white space. *)
Definition no_space (s : string) : Prop := all_chars (fun c => negb (is_space c)) s = true.

(** [h.tags], read as empty when absent. *)
Definition hotspot_tags (h : Hotspot) : list string :=
  match h_tags h with
  | Some tags => tags
  | None => []
  end.

(** The craving words that the hotspot name contains or that contain the
    first piece of the name. *)
Definition words_matching_name (name : string) (ws : list string) : list string :=
  List.filter
    (fun w => includes (toLowerCase name) w
              || includes w (first_piece (toLowerCase name)))
    ws.

(** The popularity bonus of a hotspot. *)
Definition popularity_bonus (h : Hotspot) : Q :=
  if review_count_gt h 8000 then 2
  else if review_count_gt h 6000 then 1
  else 0.

(** The score of the hotspot scorer before the baseline, rule by rule. *)
Definition hotspot_sum (mood cravings : string) (h : Hotspot) : Q :=
  (2 * count (matching_pairs (hotspot_tags h) (words (toLowerCase cravings)))
   + 1.5 * count (matching_pairs (hotspot_tags h) (words (toLowerCase mood)))
   + 3 * count (words_matching_name (h_name h) (words (toLowerCase cravings)))
   + 2 * count (words_in_name (h_name h) (words (toLowerCase mood)))
   + popularity_bonus h)%Q.

(** The restaurant fallback keeps [r]: a matching rule scored, or a tag
    names a cuisine word. *)
Definition included (mood cravings : string) (r : Restaurant) : bool :=
  Qlt_bool 0 (matching_sum mood cravings r) || has_food_tag r.

Definition nonempty {X : Type} (l : list X) : bool :=
  match l with
  | [] => false
  | _ => true
  end.

(** The value stored under a key has the kind the key names. *)
Definition kind_matches (key : string) (v : CacheValue) : Prop :=
  match v with
  | CachedHotspots _ => String.prefix "hotspots-" key = true
  | CachedSuggestions _ => String.prefix "restaurants-" key = true
  end.

Definition cache_well_kinded (w : World) : Prop :=
  forall key v, cache w !! key = Some v -> kind_matches key v.

(** The value has the kind of the candidate list. *)
Definition value_of_kind (k : Kind) (v : CacheValue) : Prop :=
  match k, v with
  | hotspot, CachedHotspots _ => True
  | restaurant, CachedSuggestions _ => True
  | _, _ => False
  end.

(** Every pending timer is due after now and within 300000 ms. *)
Definition timers_in_window (w : World) : Prop :=
  forall due key, In (due, key) (timers w) ->
                  (clock w < due)%N /\ (due <= clock w + 300000)%N.

(** The number of resolutions among some events. *)
Definition resolutions (events : list Event) : nat :=
  length (List.filter (fun e => match e with Resolve _ _ _ _ _ => true | Elapse _ => false end)
                      events).

(** The suggestion the client makes of a ranking that points at [r]. *)
Definition suggestion_for (rk : Ranking) (r : Restaurant) : Suggestion :=
  {| sg_placeId := r_placeId r;
     sg_reasoning :=
       match rk_reasoning rk with
       | Some EmptyString | None => r_name r +:+ " - " +:+ r_cuisine r
       | Some reasoning => reasoning
       end |}.

(** No character of [s] is an underscore. *)
Definition no_underscore (s : string) : Prop :=
  all_chars (fun c => negb (N_of_ascii c =? 95)%N) s = true.

(** At most [n] tags, none with an underscore. *)
Definition tidy_tags (n : nat) (tags : option (list string)) : Prop :=
  exists l, tags = Some l /\ (length l <= n)%nat /\ Forall no_underscore l.

(** * Properties *)

(** ** String operations on examples *)

Example split_ws_spaces : split_ws " a  b " = [EmptyString; "a"; "b"; EmptyString].
Proof. reflexivity. Qed.

Example split_ws_empty : split_ws EmptyString = [EmptyString].
Proof. reflexivity. Qed.

Example words_drop_short : words "Spicy  hot BBQ to go" = ["Spicy"; "hot"; "BBQ"].
Proof. reflexivity. Qed.

Example includes_examples :
  includes "pronto pizza" "pizza" = true /\ includes "pizza" "pronto pizza" = false
  /\ includes "abc" EmptyString = true /\ includes EmptyString "a" = false.
Proof. repeat split. Qed.

Example trim_example : trim "  spicy pizza " = "spicy pizza".
Proof. reflexivity. Qed.

Example lower_example : toLowerCase "Hometown Bar-B-Que" = "hometown bar-b-que".
Proof. reflexivity. Qed.

Example first_piece_example : first_piece "sunset park (chinatown)" = "sunset".
Proof. reflexivity. Qed.



(** ** The sort *)

Section JsSortFacts.
Context {A : Type} (compareFn : A -> A -> Q).

Lemma sort_insert_perm x l : Permutation (sort_insert compareFn x l) (x :: l).
Proof.
  induction l as [|y l IH]; simpl; [reflexivity|].
  destruct (Qle_bool (compareFn x y) 0); [reflexivity|].
  rewrite IH. apply perm_swap.
Qed.

Lemma sort_perm l : Permutation (sort compareFn l) l.
Proof.
  induction l as [|x l IH]; simpl; [constructor|].
  rewrite sort_insert_perm. now constructor.
Qed.

Lemma sort_length l : length (sort compareFn l) = length l.
Proof. apply Permutation_length, sort_perm. Qed.

Section Consistent.
Hypothesis total : forall a b, keeps_before compareFn a b \/ keeps_before compareFn b a.
Hypothesis trans : forall a b c,
  keeps_before compareFn a b -> keeps_before compareFn b c -> keeps_before compareFn a c.

Lemma sort_insert_sorted x l :
  StronglySorted (keeps_before compareFn) l -> StronglySorted (keeps_before compareFn) (sort_insert compareFn x l).
Proof.
  induction l as [|y l IH]; intros Hs; simpl.
  - repeat constructor.
  - inversion Hs as [|? ? Hl Hy]; subst.
    destruct (Qle_bool (compareFn x y) 0) eqn:E.
    + apply Qle_bool_iff in E. constructor; [assumption|].
      constructor; [exact E|].
      eapply Forall_impl; [exact Hy|]. intros z Hz. eapply trans; eauto.
    + constructor; [now apply IH|].
      assert (Hyx : keeps_before compareFn y x).
      { destruct (total x y) as [H|H]; [|exact H].
        apply Qle_bool_iff in H. unfold keeps_before in *. congruence. }
      eapply Permutation_Forall; [symmetry; apply sort_insert_perm|].
      now constructor.
Qed.

Lemma sort_sorted l : StronglySorted (keeps_before compareFn) (sort compareFn l).
Proof.
  induction l as [|x l IH]; simpl; [constructor|].
  now apply sort_insert_sorted.
Qed.

Lemma sort_insert_stable z x l :
  List.filter (tied compareFn z) (sort_insert compareFn x l) = List.filter (tied compareFn z) (x :: l).
Proof.
  induction l as [|y l IH]; [reflexivity|].
  cbn [sort_insert].
  destruct (Qle_bool (compareFn x y) 0) eqn:E; [reflexivity|].
  cbn [List.filter] in *. rewrite IH.
  destruct (tied compareFn z x) eqn:Ex, (tied compareFn z y) eqn:Ey; try reflexivity.
  exfalso. unfold tied in Ex, Ey.
  apply andb_true_iff in Ex as [_ Hxz], Ey as [Hzy _].
  apply Qle_bool_iff in Hxz, Hzy.
  assert (H : keeps_before compareFn x y) by (eapply trans; eauto).
  apply Qle_bool_iff in H. congruence.
Qed.

Lemma sort_stable z l :
  List.filter (tied compareFn z) (sort compareFn l) = List.filter (tied compareFn z) l.
Proof.
  induction l as [|x l IH]; [reflexivity|].
  cbn [sort foldr]. fold (sort compareFn l).
  rewrite sort_insert_stable. cbn [List.filter]. now rewrite IH.
Qed.

End Consistent.
End JsSortFacts.

(** Sorting commutes with a map that preserves the comparator. *)
Lemma sort_map {A B : Type} (g : A -> B) (cmpA : A -> A -> Q) (cmpB : B -> B -> Q) l :
  (forall a b, cmpB (g a) (g b) = cmpA a b) ->
  sort cmpB (map g l) = map g (sort cmpA l).
Proof.
  intros Hc. induction l as [|x l IH]; [reflexivity|].
  cbn [map sort foldr]. fold (sort cmpB (map g l)) (sort cmpA l). rewrite IH.
  generalize (sort cmpA l) as s. intros s.
  induction s as [|y s IHs]; [reflexivity|].
  cbn [map sort_insert]. rewrite Hc.
  destruct (Qle_bool (cmpA x y) 0); [reflexivity|].
  cbn [map]. now rewrite IHs.
Qed.

Lemma StronglySorted_weaken {A : Type} (R S : A -> A -> Prop) l :
  (forall a b, R a b -> S a b) -> StronglySorted R l -> StronglySorted S l.
Proof.
  intros HRS. induction 1 as [|x l Hl IH Hx]; constructor; [exact IH|].
  eapply Forall_impl; [exact Hx|]. intros y. apply HRS.
Qed.

(** ** The hotspot fallback *)

Section HotspotFallback.
Variable Math_log : N -> Q.
Variables mood cravings : string.

Local Abbreviation fallback_score_of := (fallback_score_of Math_log mood cravings).
Local Abbreviation by_score_desc := (by_score_desc Math_log mood cravings).

Lemma hotspots_fallback_sort l :
  hotspots_fallback Math_log mood cravings l = sort by_score_desc l.
Proof.
  unfold hotspots_fallback.
  rewrite (sort_map (fun h => (h, fallback_score_of h)) by_score_desc compare_hotspots)
    by reflexivity.
  rewrite map_map. cbn [fst]. apply map_id.
Qed.

Lemma by_score_desc_keeps a b :
  keeps_before by_score_desc a b <-> (fallback_score_of b <= fallback_score_of a)%Q.
Proof. unfold keeps_before, by_score_desc. split; intros H; lra. Qed.

Lemma by_score_desc_tied z h :
  tied by_score_desc z h = Qeq_bool (fallback_score_of h) (fallback_score_of z).
Proof.
  unfold tied, by_score_desc.
  destruct (Qeq_bool _ _) eqn:E.
  - apply Qeq_bool_iff in E. apply andb_true_iff.
    split; apply Qle_bool_iff; lra.
  - apply andb_false_iff.
    destruct (Qle_bool (fallback_score_of h - fallback_score_of z) 0) eqn:E1; [|now left].
    destruct (Qle_bool (fallback_score_of z - fallback_score_of h) 0) eqn:E2; [|now right].
    apply Qle_bool_iff in E1, E2.
    assert (H : (fallback_score_of h == fallback_score_of z)%Q) by lra.
    apply Qeq_bool_iff in H. congruence.
Qed.

End HotspotFallback.

(** C4. The hotspot fallback returns every input hotspot exactly once
    (same length, a permutation of the input), in descending order of
    score, and hotspots of equal score keep their input order. *)
Theorem hotspots_fallback_reorders :
  forall (Math_log : N -> Q) (mood cravings : string) (allHotspots : list Hotspot),
    let result := hotspots_fallback Math_log mood cravings allHotspots in
    let score := fallback_score_of Math_log mood cravings in
    length result = length allHotspots
    /\ Permutation result allHotspots
    /\ StronglySorted (fun a b => (score b <= score a)%Q) result
    /\ forall z, List.filter (fun h => Qeq_bool (score h) (score z)) result
                 = List.filter (fun h => Qeq_bool (score h) (score z)) allHotspots.
Proof.
  intros Math_log mood cravings l result score. subst result score.
  rewrite hotspots_fallback_sort.
  set (cmp := by_score_desc Math_log mood cravings).
  assert (Htot : forall a b, keeps_before cmp a b \/ keeps_before cmp b a).
  { intros a b. unfold cmp. rewrite !by_score_desc_keeps.
    destruct (Qlt_le_dec (fallback_score_of Math_log mood cravings a)
                         (fallback_score_of Math_log mood cravings b)); [right|left]; lra. }
  assert (Htr : forall a b c, keeps_before cmp a b -> keeps_before cmp b c ->
                              keeps_before cmp a c).
  { intros a b c. unfold cmp. rewrite !by_score_desc_keeps. intros; lra. }
  repeat split.
  - apply sort_length.
  - apply sort_perm.
  - eapply StronglySorted_weaken; [|apply (sort_sorted cmp Htot Htr)].
    intros a b. unfold cmp. now rewrite by_score_desc_keeps.
  - intros z.
    rewrite <- !(List.filter_ext _ _ (by_score_desc_tied Math_log mood cravings z)).
    apply (sort_stable cmp Htr).
Qed.

(** ** The restaurant ranking *)



Lemma filter_perm {A : Type} (f : A -> bool) l l' :
  Permutation l l' -> Permutation (List.filter f l) (List.filter f l').
Proof.
  induction 1; cbn [List.filter].
  - constructor.
  - destruct (f x); [now constructor|assumption].
  - destruct (f x), (f y); try reflexivity. apply perm_swap.
  - etransitivity; eassumption.
Qed.






(** ** The restaurant score *)

Lemma count_nil {X : Type} : (count (@nil X) == 0)%Q.
Proof. reflexivity. Qed.

Lemma count_cons {X : Type} (x : X) l : (count (x :: l) == count l + 1)%Q.
Proof.
  unfold count. cbn [length]. rewrite Nat2Z.inj_succ, <- Z.add_1_r.
  rewrite inject_Z_plus. reflexivity.
Qed.

Lemma count_app {X : Type} (l l' : list X) : (count (l ++ l') == count l + count l')%Q.
Proof.
  unfold count. rewrite List.length_app, Nat2Z.inj_add, inject_Z_plus. reflexivity.
Qed.

(** A loop that adds [c] to the score for every element passing [p]. *)
Lemma foldl_adds {S B : Type} (score : S -> Q) (p : B -> bool) (upd : S -> B -> S) (c : Q) :
  (forall s w, (score (upd s w) == score s + c)%Q) ->
  forall ws s,
    (score (foldl (fun s w => if p w then upd s w else s) s ws)
     == score s + c * count (List.filter p ws))%Q.
Proof.
  intros Hupd ws. induction ws as [|w ws IH]; intros s; cbn [foldl List.filter].
  - rewrite count_nil. lra.
  - rewrite IH. destruct (p w).
    + rewrite Hupd, count_cons. lra.
    + lra.
Qed.

Lemma matching_pairs_cons tag tags ws :
  (count (matching_pairs (tag :: tags) ws)
   == count (List.filter (fun w => either_includes (toLowerCase tag) w) ws)
      + count (matching_pairs tags ws))%Q.
Proof.
  unfold matching_pairs. cbn [list_prod].
  rewrite List.filter_app, count_app.
  apply Qplus_inj_r. unfold count.
  induction ws as [|w ws IH]; [reflexivity|].
  cbn [map List.filter fst snd].
  destruct (either_includes (toLowerCase tag) w); cbn [length]; [|exact IH].
  rewrite !Nat2Z.inj_succ, <- !Z.add_1_r, !inject_Z_plus. now rewrite IH.
Qed.

Lemma score_tag_score phrase moodWords cravingsWords st tag :
  (ts_score (score_tag phrase moodWords cravingsWords st tag)
   == ts_score st
      + 3 * count (List.filter (fun w => either_includes (toLowerCase tag) w) cravingsWords)
      + (if either_includes (toLowerCase tag) phrase then 4 else 0)
      + 1.5 * count (List.filter (fun w => either_includes (toLowerCase tag) w) moodWords))%Q.
Proof.
  unfold score_tag.
  rewrite (foldl_adds ts_score (fun w => either_includes (toLowerCase tag) w)
             (fun st _ => {| ts_score := ts_score st + 1.5;
                             ts_hasDirectMatch := ts_hasDirectMatch st;
                             ts_matchedTags := push_unique tag (ts_matchedTags st) |}) 1.5)
    by (intros; reflexivity).
  destruct (either_includes (toLowerCase tag) phrase); cbn [ts_score];
    rewrite (foldl_adds ts_score (fun w => either_includes (toLowerCase tag) w)
               (fun st _ => {| ts_score := ts_score st + 3;
                               ts_hasDirectMatch := true;
                               ts_matchedTags := push_unique tag (ts_matchedTags st) |}) 3)
      by (intros; reflexivity); lra.
Qed.

Lemma score_tags_loop phrase moodWords cravingsWords tags st :
  (ts_score (foldl (score_tag phrase moodWords cravingsWords) st tags)
   == ts_score st
      + 3 * count (matching_pairs tags cravingsWords)
      + 1.5 * count (matching_pairs tags moodWords)
      + 4 * count (phrase_tags phrase tags))%Q.
Proof.
  revert st. induction tags as [|tag tags IH]; intros st; cbn [foldl].
  - unfold matching_pairs, phrase_tags. cbn. rewrite !count_nil. lra.
  - rewrite IH, score_tag_score, !matching_pairs_cons.
    unfold phrase_tags. cbn [List.filter].
    destruct (either_includes (toLowerCase tag) phrase); rewrite ?count_cons; lra.
Qed.

Lemma score_tags_score phrase moodWords cravingsWords r st :
  (ss_score (score_tags phrase moodWords cravingsWords r st)
   == ss_score st
      + 3 * count (matching_pairs (tags_of r) cravingsWords)
      + 1.5 * count (matching_pairs (tags_of r) moodWords)
      + 4 * count (phrase_tags phrase (tags_of r)))%Q.
Proof.
  unfold score_tags, tags_of.
  destruct (r_tags r) as [[|t ts]|].
  - unfold matching_pairs, phrase_tags. cbn. rewrite !count_nil. lra.
  - cbn [ss_score]. rewrite score_tags_loop. cbn [ts_score]. lra.
  - unfold matching_pairs, phrase_tags. cbn. rewrite !count_nil. lra.
Qed.

Lemma score_name_score phrase cravingsWords r st :
  (ss_score (score_name phrase cravingsWords r st)
   == ss_score st
      + 2 * count (words_in_name (r_name r) cravingsWords)
      + (if includes (toLowerCase (r_name r)) phrase then 3 else 0))%Q.
Proof.
  unfold score_name, words_in_name.
  destruct (includes (toLowerCase (r_name r)) phrase); cbn [ss_score];
    rewrite (foldl_adds ss_score (fun w => includes (toLowerCase (r_name r)) w)
               (fun st word =>
                  {| ss_score := ss_score st + 2;
                     ss_hasDirectMatch := true;
                     ss_reasoningParts :=
                       if existsb (fun p => includes p "serves") (ss_reasoningParts st)
                       then ss_reasoningParts st
                       else ss_reasoningParts st ++ ["specializes in " +:+ word] |}) 2)
      by (intros; reflexivity); lra.
Qed.

Lemma score_cuisine_score r st :
  ss_score (score_cuisine r st)
  = if Qeq_bool (ss_score st) 0 && has_food_tag r then 0.1%Q else ss_score st.
Proof.
  unfold score_cuisine, has_food_tag, tags_of.
  destruct (r_tags r) as [tags|]; [|now rewrite andb_false_r].
  destruct (Qeq_bool (ss_score st) 0); [|reflexivity]. cbn [andb].
  induction tags as [|t tags IH]; [reflexivity|].
  cbn [List.filter existsb].
  destruct (existsb (fun ft => includes (toLowerCase t) ft) food_words); [reflexivity|].
  exact IH.
Qed.

(** ** The cache and its timers *)

Section CacheFacts.
Variable Math_log : N -> Q.

Lemma resolve_shape c mood cravings userProfile remote w :
  resolve Math_log c mood cravings userProfile remote w
  = resolver_shape (signature_key (kind_of c) mood cravings)
      (request_of c mood cravings userProfile) (tried_of (kind_of c))
      (fallback_value Math_log c mood cravings) remote w.
Proof.
  destruct c; cbn [resolve kind_of signature_key request_of tried_of fallback_value];
    unfold getAiFilteredHotspots, getAiRankedRestaurants, resolver_shape.
  - destruct (cache w !! hotspots_key mood cravings); [reflexivity|].
    destruct (fetch None remote) as [[dt res]|]; [|reflexivity].
    cbv zeta. unfold tried_of. destruct (hotspots_try res); reflexivity.
  - destruct (cache w !! restaurants_key mood cravings); [reflexivity|].
    destruct (fetch None remote) as [[dt res]|]; [|reflexivity].
    cbv zeta. unfold tried_of. destruct (restaurants_try res); reflexivity.
Qed.

Lemma fire_lookup (t : N) (tm : list (N * string)) (c : gmap string CacheValue) k :
  foldl (fun c '(due, key) => if (due <=? t)%N then delete key c else c) c tm !! k
  = if existsb (fun '(due, key) => (due <=? t)%N && bool_decide (key = k)) tm
    then None else c !! k.
Proof.
  revert c. induction tm as [|[due key] tm IH]; intros c; cbn [foldl existsb]; [reflexivity|].
  rewrite IH. destruct (due <=? t)%N; cbn [andb orb]; [|reflexivity].
  destruct (existsb _ tm); [now rewrite orb_true_r|]. rewrite orb_false_r.
  case_bool_decide as E.
  - subst. apply lookup_delete_eq.
  - now apply lookup_delete_ne.
Qed.

Lemma elapse_lookup dt w k :
  cache (elapse dt w) !! k
  = if existsb (fun '(due, key) => (due <=? clock w + dt)%N && bool_decide (key = k))
               (timers w)
    then None else cache w !! k.
Proof. unfold elapse. cbn [cache]. apply fire_lookup. Qed.

Lemma elapse_lookup_None dt w k : cache w !! k = None -> cache (elapse dt w) !! k = None.
Proof. intros H. rewrite elapse_lookup, H. now destruct (existsb _ _). Qed.

Lemma elapse_timers_In dt w due key :
  In (due, key) (timers (elapse dt w)) <->
  In (due, key) (timers w) /\ (clock w + dt < due)%N.
Proof.
  unfold elapse. cbn [timers]. rewrite List.filter_In.
  rewrite negb_true_iff, N.leb_gt. reflexivity.
Qed.

Lemma NoDup_keys_due (tm : list (N * string)) a b k :
  NoDup (map snd tm) -> In (a, k) tm -> In (b, k) tm -> a = b.
Proof.
  induction tm as [|[d key] tm IH]; cbn [map snd In]; intros Hnd Ha Hb; [contradiction|].
  apply NoDup_cons in Hnd as [Hnotin Hnd].
  assert (Hk : forall x, In (x, k) tm -> k ∈ map snd tm).
  { intros x Hx. apply list_elem_of_In. apply (List.in_map snd) in Hx. exact Hx. }
  destruct Ha as [Ha|Ha], Hb as [Hb|Hb].
  - congruence.
  - inversion Ha; subst. exfalso. eauto.
  - inversion Hb; subst. exfalso. eauto.
  - eauto.
Qed.

Lemma NoDup_filter_keys (f : N * string -> bool) (tm : list (N * string)) :
  NoDup (map snd tm) -> NoDup (map snd (List.filter f tm)).
Proof.
  induction tm as [|x tm IH]; cbn [map List.filter]; intros Hnd; [constructor|].
  apply NoDup_cons in Hnd as [Hnotin Hnd].
  destruct (f x); [|now apply IH].
  cbn [map]. apply NoDup_cons. split; [|now apply IH].
  intros Hin. apply Hnotin.
  apply list_elem_of_In in Hin. apply List.in_map_iff in Hin as [y [Hy Hin]].
  apply List.filter_In in Hin as [Hin _].
  apply list_elem_of_In. rewrite <- Hy. now apply List.in_map.
Qed.

Lemma elapse_tracked dt w : timers_tracked w -> timers_tracked (elapse dt w).
Proof.
  intros [Hnd Hin]. split.
  - unfold elapse. cbn [timers]. now apply NoDup_filter_keys.
  - intros due key H. apply elapse_timers_In in H as [H Hdue].
    rewrite elapse_lookup.
    destruct (existsb _ (timers w)) eqn:E; [|eauto].
    exfalso. apply List.existsb_exists in E as [[d k] [Hd E]].
    apply andb_true_iff in E as [Hle Hk].
    apply bool_decide_eq_true in Hk. subst k.
    apply N.leb_le in Hle.
    assert (d = due) by (eapply NoDup_keys_due; eauto). lia.
Qed.

Lemma tracked_no_timer w key due :
  timers_tracked w -> cache w !! key = None -> ~ In (due, key) (timers w).
Proof.
  intros [_ Hin] Hnone H. apply Hin in H. rewrite Hnone in H. now destruct H.
Qed.

Lemma shape_tracked key rq tried local remote w :
  timers_tracked w -> timers_tracked (snd (resolver_shape key rq tried local remote w)).
Proof.
  intros Ht. unfold resolver_shape.
  destruct (cache w !! key) eqn:Hmiss; [exact Ht|].
  assert (Hs : timers_tracked (send rq w)) by exact Ht.
  destruct (fetch None remote) as [[dt res]|]; [|exact Hs].
  cbv zeta.
  assert (He : timers_tracked (elapse dt (send rq w))) by now apply elapse_tracked.
  assert (Hnone : cache (elapse dt (send rq w)) !! key = None)
    by now apply elapse_lookup_None.
  destruct (tried res) as [e|v]; cbn [snd].
  - destruct He as [Hnd Hin]. split; [exact Hnd|].
    intros due k H. cbn [cache_set cache timers] in *.
    destruct (decide (key = k)) as [->|Hne].
    + rewrite lookup_insert_eq. eauto.
    + rewrite lookup_insert_ne by exact Hne. eauto.
  - destruct He as [Hnd Hin]. split.
    + cbn [setTimeout_delete cache_set timers].
      rewrite map_app. cbn [map snd]. apply NoDup_app. split; [exact Hnd|].
      split; [|apply NoDup_singleton].
      intros k Hk Hk'. apply list_elem_of_singleton in Hk'. subst k.
      apply list_elem_of_In, List.in_map_iff in Hk as [[d k] [Hk Hd]].
      cbn [snd] in Hk. subst k.
      apply Hin in Hd. rewrite Hnone in Hd. now destruct Hd.
    + intros due k H. cbn [setTimeout_delete cache_set cache timers] in *.
      destruct (decide (key = k)) as [->|Hne].
      * rewrite lookup_insert_eq. eauto.
      * rewrite lookup_insert_ne by exact Hne.
        apply List.in_app_iff in H as [H|[H|[]]]; [eauto|congruence].
Qed.

Lemma step_tracked w e : timers_tracked w -> timers_tracked (step Math_log w e).
Proof.
  destruct e as [dt|c mood cravings userProfile remote]; cbn [step].
  - apply elapse_tracked.
  - rewrite resolve_shape. apply shape_tracked.
Qed.

Lemma run_tracked events w : timers_tracked w -> timers_tracked (run Math_log events w).
Proof.
  revert w. induction events as [|e events IH]; intros w H; [exact H|].
  apply IH, step_tracked, H.
Qed.

Lemma reachable_tracked w : reachable Math_log w -> timers_tracked w.
Proof.
  intros [events ->]. apply run_tracked. split; [constructor|intros ? ? []].
Qed.

End CacheFacts.

Section Resolution.
Variable Math_log : N -> Q.

Lemma elapse_clock dt w : clock (elapse dt w) = (clock w + dt)%N.
Proof. reflexivity. Qed.

Lemma shape_clock key rq tried local remote w :
  (clock w <= clock (snd (resolver_shape key rq tried local remote w)))%N.
Proof.
  unfold resolver_shape.
  destruct (cache w !! key); [reflexivity|].
  destruct (fetch None remote) as [[dt res]|]; [|reflexivity].
  cbv zeta. destruct (tried res); cbn; lia.
Qed.

Lemma step_clock w e : (clock w <= clock (step Math_log w e))%N.
Proof.
  destruct e as [dt|c mood cravings userProfile remote]; cbn [step].
  - rewrite elapse_clock. lia.
  - rewrite resolve_shape. apply shape_clock.
Qed.

Lemma run_clock events w : (clock w <= clock (run Math_log events w))%N.
Proof.
  revert w. induction events as [|e events IH]; intros w; [reflexivity|].
  cbn [run foldl]. etransitivity; [apply (step_clock w e)|apply IH].
Qed.

Lemma elapse_held key v deadline dt w :
  entry_held key v deadline w -> (clock w + dt < deadline)%N ->
  entry_held key v deadline (elapse dt w).
Proof.
  intros [Hv Hdue] Hlt. split.
  - rewrite elapse_lookup.
    destruct (existsb _ (timers w)) eqn:E; [|exact Hv].
    exfalso. apply List.existsb_exists in E as [[d k] [Hd E]].
    apply andb_true_iff in E as [Hle Hk].
    apply bool_decide_eq_true in Hk. subst k.
    apply N.leb_le in Hle. apply Hdue in Hd. lia.
  - intros due H. apply elapse_timers_In in H as [H _]. now apply Hdue.
Qed.

Lemma shape_held key v deadline key' rq tried local remote w :
  entry_held key v deadline w ->
  (clock (snd (resolver_shape key' rq tried local remote w)) < deadline)%N ->
  entry_held key v deadline (snd (resolver_shape key' rq tried local remote w)).
Proof.
  intros Hh. unfold resolver_shape.
  destruct (cache w !! key') eqn:Hmiss; [intros _; exact Hh|].
  assert (Hne : key' <> key).
  { intros ->. destruct Hh as [Hv _]. congruence. }
  destruct (fetch None remote) as [[dt res]|]; [|intros _; exact Hh].
  cbv zeta.
  assert (Hs : entry_held key v deadline (send rq w)) by exact Hh.
  destruct (tried res) as [e|x]; cbn [snd]; intros Hlt.
  - apply (elapse_held _ _ _ dt) in Hs; [|exact Hlt].
    destruct Hs as [Hv Hdue]. split; [|exact Hdue].
    cbn [cache_set cache]. now rewrite lookup_insert_ne.
  - apply (elapse_held _ _ _ dt) in Hs; [|exact Hlt].
    destruct Hs as [Hv Hdue]. split.
    + cbn [setTimeout_delete cache_set cache]. now rewrite lookup_insert_ne.
    + intros due H. cbn [setTimeout_delete cache_set timers] in H.
      apply List.in_app_iff in H as [H|[H|[]]]; [now apply Hdue|congruence].
Qed.

Lemma step_held key v deadline w e :
  entry_held key v deadline w -> (clock (step Math_log w e) < deadline)%N ->
  entry_held key v deadline (step Math_log w e).
Proof.
  destruct e as [dt|c mood cravings userProfile remote]; cbn [step].
  - intros H Hlt. apply elapse_held; [exact H|]. now rewrite elapse_clock in Hlt.
  - rewrite resolve_shape. apply shape_held.
Qed.

Lemma run_held key v deadline events w :
  entry_held key v deadline w -> (clock (run Math_log events w) < deadline)%N ->
  entry_held key v deadline (run Math_log events w).
Proof.
  revert w. induction events as [|e events IH]; intros w H Hlt; [exact H|].
  cbn [run foldl] in *. apply IH; [|exact Hlt].
  apply step_held; [exact H|].
  eapply N.le_lt_trans; [apply (run_clock events)|exact Hlt].
Qed.

(** A miss leaves the entry it creates held for the next 300000 ms. *)
Lemma shape_creates key rq tried local remote w v w1 :
  timers_tracked w -> cache w !! key = None ->
  resolver_shape key rq tried local remote w = (Returned v, w1) ->
  entry_held key v (clock w1 + 300000) w1.
Proof.
  intros Ht Hmiss. unfold resolver_shape. rewrite Hmiss.
  destruct (fetch None remote) as [[dt res]|]; [|discriminate].
  cbv zeta.
  assert (He : timers_tracked (elapse dt (send rq w)))
    by (apply elapse_tracked; exact Ht).
  assert (Hnone : cache (elapse dt (send rq w)) !! key = None)
    by now apply elapse_lookup_None.
  destruct (tried res) as [e|x]; intros [= <- <-].
  - split; [apply lookup_insert_eq|].
    intros due H. exfalso. exact (tracked_no_timer _ _ _ He Hnone H).
  - split; [apply lookup_insert_eq|].
    intros due H. cbn [setTimeout_delete cache_set timers clock] in *.
    apply List.in_app_iff in H as [H|[H|[]]].
    + exfalso. exact (tracked_no_timer _ _ _ He Hnone H).
    + injection H as <-. reflexivity.
Qed.

(** A failed remote call on a miss stores the local result with no timer. *)
Lemma shape_falls_back key rq k local remote w :
  cache w !! key = None -> remote_fails remote ->
  exists dt,
    resolver_shape key rq (tried_of k) local remote w
    = (Returned local, cache_set key local (elapse dt (send rq w))).
Proof.
  intros Hmiss Hf. unfold resolver_shape. rewrite Hmiss.
  destruct remote as [d|d status body|]; cbn [remote_fails fetch] in *; [| |contradiction];
    exists d; cbv zeta.
  - destruct k; reflexivity.
  - destruct Hf as [Hok| ->].
    + destruct k; cbn [tried_of hotspots_try restaurants_try]; rewrite Hok; cbn [negb];
        destruct (body_fallback body); reflexivity.
    + destruct k; cbn [tried_of hotspots_try restaurants_try];
        destruct (response_ok status); reflexivity.
Qed.

End Resolution.


(** C7. Once a resolution has created the entry of its signature, every
    resolution with the same signature that starts before 300000 ms have
    passed returns that stored value and leaves the world as it is: no
    request is sent and nothing is scored again, whatever the candidate
    list, the profile or the remote end are by then. *)
Theorem repeated_signature_hits_cache :
  forall (Math_log : N -> Q) (w : World) (c : Candidates) (mood cravings : string)
         (userProfile : option Profile) (remote : Remote) (v : CacheValue) (w1 : World),
    reachable Math_log w ->
    cache w !! signature_key (kind_of c) mood cravings = None ->
    resolve Math_log c mood cravings userProfile remote w = (Returned v, w1) ->
    forall (events : list Event) (c' : Candidates) (userProfile' : option Profile)
           (remote' : Remote),
      kind_of c' = kind_of c ->
      (clock (run Math_log events w1) < clock w1 + 300000)%N ->
      resolve Math_log c' mood cravings userProfile' remote' (run Math_log events w1)
      = (Returned v, run Math_log events w1).
Proof.
  intros Math_log w c mood cravings userProfile remote v w1 Hr Hmiss Hres
         events c' userProfile' remote' Hk Hlt.
  rewrite resolve_shape in Hres.
  apply shape_creates in Hres; [|now apply (reachable_tracked Math_log)|exact Hmiss].
  apply (run_held Math_log _ _ _ events) in Hres; [|exact Hlt].
  destruct Hres as [Hv _].
  rewrite resolve_shape, Hk. unfold resolver_shape. now rewrite Hv.
Qed.

(** C2 (amended). The accumulated score of a restaurant is 3 per (tag,
    craving word) pair in which one contains the other, 1.5 per such (tag,
    mood word) pair, 4 per tag that contains the craving phrase or is
    contained in it, 2 per craving word present in the lower-cased name,
    and 3 if the name contains the craving phrase; mood words score nothing
    against the name.  The returned score is that sum, or 0.1 when the sum
    is 0 and a tag names one of the fixed cuisine words. *)
Theorem restaurant_score_rules :
  forall (mood cravings : string) (r : Restaurant),
    (ss_score (score_matches mood cravings r) == matching_sum mood cravings r)%Q
    /\ sc_score (score_restaurant mood cravings r)
       = if Qeq_bool (ss_score (score_matches mood cravings r)) 0 && has_food_tag r
         then 0.1%Q else ss_score (score_matches mood cravings r).
Proof.
  intros mood cravings r. split.
  - unfold score_matches, matching_sum, craving_words, mood_words, craving_phrase.
    rewrite score_name_score, score_tags_score. cbn [ss_score]. lra.
  - unfold score_restaurant. cbn [sc_score]. apply score_cuisine_score.
Qed.

(** C2, as worded: for "Verdure" (tags vegan, healthy, upscale, modern),
    mood "happy" and craving "vegan", the worded rules give 2 + 4 = 6 while
    the scorer accumulates 3 + 4 = 7. *)
Lemma restaurant_score_not_as_worded :
  ~ (ss_score (score_matches "happy" "vegan" verdure)
     == worded_sum "happy" "vegan" verdure)%Q.
Proof. vm_compute. discriminate. Qed.

Example verdure_scores :
  (ss_score (score_matches "happy" "vegan" verdure) == 7)%Q
  /\ (worded_sum "happy" "vegan" verdure == 6)%Q.
Proof. split; reflexivity. Qed.

(** ** Result processing *)

Lemma restaurantMap_from (m : gmap string Restaurant) l id r :
  foldl (fun m r => <[r_placeId r := r]> m) m l !! id = Some r ->
  (In r l /\ r_placeId r = id) \/ m !! id = Some r.
Proof.
  revert m. induction l as [|x l IH]; intros m; cbn [foldl]; [now right|].
  intros H. apply IH in H as [[H1 H2]|H].
  - left. split; [now right|exact H2].
  - destruct (decide (r_placeId x = id)) as [E|E].
    + subst id. rewrite lookup_insert_eq in H. assert (x = r) by congruence. subst r.
      left. split; [now left|reflexivity].
    + rewrite lookup_insert_ne in H by exact E. now right.
Qed.

Lemma restaurantMap_Some l id r :
  restaurantMap l !! id = Some r -> In r l /\ r_placeId r = id.
Proof.
  intros H. apply restaurantMap_from in H as [H|H]; [exact H|].
  rewrite lookup_empty in H. discriminate.
Qed.

Lemma restaurantMap_from_None (m : gmap string Restaurant) l id :
  foldl (fun m r => <[r_placeId r := r]> m) m l !! id = None <->
  ~ In id (map r_placeId l) /\ m !! id = None.
Proof.
  revert m. induction l as [|x l IH]; intros m; cbn [foldl map In]; [tauto|].
  rewrite IH. destruct (decide (r_placeId x = id)) as [E|E].
  - subst id. rewrite lookup_insert_eq. split; [intros [_ H]; discriminate|tauto].
  - rewrite lookup_insert_ne by exact E. tauto.
Qed.

Lemma restaurantMap_None l id :
  restaurantMap l !! id = None <-> ~ In id (map r_placeId l).
Proof.
  unfold restaurantMap. rewrite restaurantMap_from_None, lookup_empty. tauto.
Qed.

Lemma omap_step {A B : Type} (f : A -> option B) x l :
  omap f (x :: l) = match f x with Some y => y :: omap f l | None => omap f l end.
Proof. reflexivity. Qed.

Lemma filteredRestaurants_In suggestions allRestaurants r :
  In r (filteredRestaurants suggestions allRestaurants) ->
  In r allRestaurants /\ In (r_placeId r) (map sg_placeId suggestions).
Proof.
  unfold filteredRestaurants.
  induction suggestions as [|s l IH]; [contradiction|].
  rewrite omap_step. cbn [map In].
  destruct (restaurantMap allRestaurants !! sg_placeId s) as [x|] eqn:E.
  - cbn [In]. intros [<-|H].
    + apply restaurantMap_Some in E as [E1 E2]. split; [exact E1|now left].
    + apply IH in H as [H1 H2]. split; [exact H1|now right].
  - intros H. apply IH in H as [H1 H2]. split; [exact H1|now right].
Qed.

Lemma filteredRestaurants_ids suggestions allRestaurants :
  map r_placeId (filteredRestaurants suggestions allRestaurants)
  = List.filter (fun id => bool_decide (id ∈ map r_placeId allRestaurants))
                (map sg_placeId suggestions).
Proof.
  unfold filteredRestaurants.
  induction suggestions as [|s l IH]; [reflexivity|].
  rewrite omap_step. cbn [map List.filter].
  destruct (restaurantMap allRestaurants !! sg_placeId s) as [x|] eqn:E.
  - pose proof E as E'. apply restaurantMap_Some in E' as [_ E2].
    rewrite bool_decide_eq_true_2.
    + cbn [map]. now rewrite IH, E2.
    + destruct (decide (sg_placeId s ∈ map r_placeId allRestaurants)) as [H|H];
        [exact H|].
      rewrite list_elem_of_In in H. apply restaurantMap_None in H. congruence.
  - apply restaurantMap_None in E. rewrite <- list_elem_of_In in E.
    rewrite bool_decide_eq_false_2 by exact E. exact IH.
Qed.

Lemma aiReasoningMap_from (m : gmap string string) l id :
  foldl (fun m s => <[sg_placeId s := sg_reasoning s]> m) m l !! id
  = match last (List.filter (fun s => bool_decide (sg_placeId s = id)) l) with
    | Some s => Some (sg_reasoning s)
    | None => m !! id
    end.
Proof.
  revert m. induction l as [|x l IH]; intros m; cbn [foldl List.filter]; [reflexivity|].
  rewrite IH. case_bool_decide as E.
  - destruct (List.filter _ l) as [|y l'] eqn:El.
    + cbn [last]. subst id. apply lookup_insert_eq.
    + rewrite last_cons_cons. destruct (last (y :: l')) eqn:E'; [reflexivity|].
      apply last_None in E'. discriminate.
  - destruct (last _); [reflexivity|]. now apply lookup_insert_ne.
Qed.

Lemma at_index_In {A : Type} (l : list A) i x : at_index l i = Some x -> In x l.
Proof. unfold at_index. intros H. apply list_elem_of_In. eapply list_elem_of_lookup_2, H. Qed.

Lemma backend_hotspots_canonical aiH aiR mood cravings profile hotspots h :
  In h (body_hotspots
          (hd_body (route aiH aiR
                      (request_of (HotspotCandidates hotspots) mood cravings profile)))) ->
  In h hotspots.
Proof.
  unfold route, request_of. cbn [rq_path rq_body]. rewrite bool_decide_eq_true_2 by reflexivity.
  unfold filter_hotspots_handler.
  repeat match goal with |- context [if ?b then _ else _] => destruct b end;
    cbn [hd_body body_hotspots]; try contradiction.
  destruct aiH; cbn [hd_body body_hotspots]; try contradiction.
  intros H. apply list_elem_of_In, list_elem_of_omap in H as [i [_ H]].
  eapply at_index_In, H.
Qed.

(** ** The claims about delivered results *)

Lemma hotspots_remote_ok Math_log mood cravings userProfile allHotspots d status body w :
  cache w !! hotspots_key mood cravings = None ->
  response_ok status = true -> body <> Unparseable ->
  fst (getAiFilteredHotspots Math_log mood cravings userProfile allHotspots
         (Responds d status body) w)
  = Returned (CachedHotspots (body_hotspots body)).
Proof.
  intros Hmiss Hok Hb. unfold getAiFilteredHotspots. rewrite Hmiss.
  cbn [fetch hotspots_try]. rewrite Hok. cbn [negb].
  destruct body; [contradiction| | |]; reflexivity.
Qed.

Lemma hotspots_fallback_In Math_log mood cravings allHotspots h :
  In h (hotspots_fallback Math_log mood cravings allHotspots) -> In h allHotspots.
Proof.
  rewrite hotspots_fallback_sort. apply Permutation_in, sort_perm.
Qed.

(** C5 (amended). Every restaurant delivered is an entry of the canonical
    list supplied for that resolution and carries a ranked identifier,
    on every path; the backend returns only entities at ranked indices
    within [0, len) of the list it was sent; and a hotspot resolution that
    missed the cache returns only hotspots of the supplied list when the
    remote call fails or is answered by the backend.  (On a cache hit the
    stored hotspots are returned unchecked.) *)
Theorem delivered_entries_are_canonical :
  forall (Math_log : N -> Q) (mood cravings : string) (userProfile : option Profile)
         (allHotspots : list Hotspot) (allRestaurants : list Restaurant)
         (remote : Remote) (w : World),
    cache w !! hotspots_key mood cravings = None ->
    (remote_fails remote
     \/ exists latency aiH aiR,
          remote = backend latency aiH aiR
                     (request_of (HotspotCandidates allHotspots) mood cravings userProfile)) ->
    (forall h,
        In h (delivered_hotspots
                (fst (getAiFilteredHotspots Math_log mood cravings userProfile allHotspots
                        remote w))) ->
        In h allHotspots)
    /\ (forall result r,
          In r (delivered_restaurants result allRestaurants) ->
          In r allRestaurants
          /\ exists v, result = Returned v
                       /\ In (r_placeId r) (map sg_placeId (suggestions_of v)))
    /\ (forall rankings x,
          In x (body_restaurants
                  (hd_body (rank_restaurants_handler mood cravings userProfile
                              allRestaurants (Parsed rankings)))) ->
          exists rk, In rk rankings
                     /\ index_in_range allRestaurants (rk_index rk) = true
                     /\ at_index allRestaurants (rk_index rk) = Some (rr_restaurant x))
    /\ (forall indices h,
          In h (body_hotspots
                  (hd_body (filter_hotspots_handler mood cravings userProfile
                              allHotspots (Parsed indices)))) ->
          exists i, In i indices
                    /\ index_in_range allHotspots i = true
                    /\ at_index allHotspots i = Some h).
Proof.
  intros Math_log mood cravings userProfile allHotspots allRestaurants remote w Hmiss Hr.
  assert (Hfail : forall remote, remote_fails remote -> forall h,
             In h (delivered_hotspots
                     (fst (getAiFilteredHotspots Math_log mood cravings userProfile
                             allHotspots remote w))) -> In h allHotspots).
  { intros rm Hf h.
    change (getAiFilteredHotspots Math_log mood cravings userProfile allHotspots rm w)
      with (resolve Math_log (HotspotCandidates allHotspots) mood cravings userProfile rm w).
    rewrite resolve_shape.
    destruct (shape_falls_back (signature_key hotspot mood cravings)
                (request_of (HotspotCandidates allHotspots) mood cravings userProfile)
                hotspot
                (fallback_value Math_log (HotspotCandidates allHotspots) mood cravings)
                rm w Hmiss Hf) as [dt Heq].
    cbn [kind_of]. rewrite Heq. cbn [fst delivered_hotspots fallback_value hotspots_of].
    apply hotspots_fallback_In. }
  split; [|split; [|split]].
  - destruct Hr as [Hf|[latency [aiH [aiR ->]]]]; [now apply Hfail|].
    unfold backend.
    set (hd := route aiH aiR _).
    destruct (response_ok (hd_status hd)) eqn:Hok;
      [|apply Hfail; cbn [remote_fails]; now left].
    assert (Hcase : hd_body hd = Unparseable \/ hd_body hd <> Unparseable)
      by (destruct (hd_body hd); [now left|right; discriminate..]).
    destruct Hcase as [Hb|Hb]; [apply Hfail; cbn [remote_fails]; now right|].
    intros h. rewrite hotspots_remote_ok by assumption.
    cbn [delivered_hotspots hotspots_of]. apply backend_hotspots_canonical.
  - intros result r H. destruct result as [v| |]; cbn [delivered_restaurants] in H;
      try contradiction.
    apply filteredRestaurants_In in H as [H1 H2]. split; [exact H1|]. now exists v.
  - intros rankings x. unfold rank_restaurants_handler.
    repeat match goal with |- context [if ?b then _ else _] => destruct b end;
      cbn [hd_body body_restaurants]; try contradiction.
    intros H. apply list_elem_of_In, list_elem_of_omap in H as [rk [Hrk H]].
    apply list_elem_of_In, List.filter_In in Hrk as [Hrk Hin].
    exists rk. split; [exact Hrk|]. split; [exact Hin|].
    destruct (at_index allRestaurants (rk_index rk)); [|discriminate].
    cbn in H. injection H as <-. reflexivity.
  - intros indices h. unfold filter_hotspots_handler.
    repeat match goal with |- context [if ?b then _ else _] => destruct b end;
      cbn [hd_body body_hotspots]; try contradiction.
    intros H. apply list_elem_of_In, list_elem_of_omap in H as [i [Hi H]].
    apply list_elem_of_In, List.filter_In in Hi as [Hi Hin].
    exists i. split; [exact Hi|]. split; [exact Hin|exact H].
Qed.

(** C5, as worded: the hotspot entry stored for ("happy", "pizza") under
    the candidate list [williamsburg] is returned to a later resolution
    of the same signature whose candidate list is [greenpoint], and the
    identity of the returned hotspot is not in that list. *)
Lemma stale_hotspot_is_delivered :
  ~ (forall h,
        In h (delivered_hotspots
                (fst (resolve log_approx (HotspotCandidates [greenpoint]) "happy" "pizza"
                        (Some sample_profile) answers_fallback after_failed_call))) ->
        In (h_id h) (map h_id [greenpoint])).
Proof.
  intros H. specialize (H williamsburg).
  assert (Hin : In (h_id williamsburg) (map h_id [greenpoint])).
  { apply H. vm_compute. left. reflexivity. }
  cbn in Hin. destruct Hin as [Hin|[]]. discriminate.
Qed.

(** The statement above at the mock hotspots, the remote end answering 500
    with the fallback flag. *)
Lemma delivered_entries_are_canonical_witness :
  List.Forall (fun h => In h [williamsburg; greenpoint])
    (delivered_hotspots
       (fst (getAiFilteredHotspots log_approx "happy" "pizza" (Some sample_profile)
               [williamsburg; greenpoint] answers_fallback initial))).
Proof.
  apply List.Forall_forall.
  apply (delivered_entries_are_canonical log_approx "happy" "pizza" (Some sample_profile)
           [williamsburg; greenpoint] [pronto; verdure] answers_fallback initial).
  - vm_compute. reflexivity.
  - left. vm_compute. left. reflexivity.
Defined.

(** C9 (amended). The reconciled restaurant list has one entry for every
    ranked suggestion whose identifier is in the canonical list, in ranked
    order, so an identifier that is ranked several times is delivered
    several times; the reasoning map keeps, for each identifier, the
    reasoning of its last occurrence. *)
Theorem reconciliation_keeps_every_ranked_entry :
  forall (suggestions : list Suggestion) (allRestaurants : list Restaurant),
    map r_placeId (filteredRestaurants suggestions allRestaurants)
    = List.filter (fun id => bool_decide (id ∈ map r_placeId allRestaurants))
                  (map sg_placeId suggestions)
    /\ forall id,
         aiReasoningMap suggestions !! id
         = sg_reasoning
             <$> last (List.filter (fun s => bool_decide (sg_placeId s = id)) suggestions).
Proof.
  intros suggestions allRestaurants. split; [apply filteredRestaurants_ids|].
  intros id. unfold aiReasoningMap. rewrite aiReasoningMap_from.
  destruct (last _); [reflexivity|apply lookup_empty].
Qed.

(** C9, as worded: when the model ranks index 0 twice, the backend returns
    that restaurant twice and the list delivered holds it twice. *)
Lemma duplicate_ranking_is_delivered_twice :
  ~ NoDup (delivered_restaurants
             (fst (resolve log_approx (RestaurantCandidates [pronto; verdure])
                     "happy" "pizza" (Some sample_profile)
                     (backend 120 GenerationFails twice_first
                        (request_of (RestaurantCandidates [pronto; verdure])
                           "happy" "pizza" (Some sample_profile)))
                     initial))
             [pronto; verdure]).
Proof.
  assert (E : delivered_restaurants
                (fst (resolve log_approx (RestaurantCandidates [pronto; verdure])
                        "happy" "pizza" (Some sample_profile)
                        (backend 120 GenerationFails twice_first
                           (request_of (RestaurantCandidates [pronto; verdure])
                              "happy" "pizza" (Some sample_profile)))
                        initial))
                [pronto; verdure] = [pronto; pronto]) by (vm_compute; reflexivity).
  rewrite E. intros H. apply NoDup_cons in H as [H _]. apply H. left.
Qed.

(** C6 (amended). With an empty candidate list and no entry for the
    signature, a resolution still sends its one request; the backend
    answers 400 without calling the model, and the resolver returns and
    stores the local scorer's empty result. *)
Theorem empty_candidates_resolve_locally :
  forall (Math_log : N -> Q) (k : Kind) (mood cravings : string)
         (userProfile : option Profile) (latency : N) (aiH : AiReply (list Z))
         (aiR : AiReply (list Ranking)) (w : World),
    cache w !! signature_key k mood cravings = None ->
    let rq := request_of (no_candidates k) mood cravings userProfile in
    let r := resolve Math_log (no_candidates k) mood cravings userProfile
               (backend latency aiH aiR rq) w in
    fst r = Returned (empty_result k)
    /\ requests (snd r) = (requests w ++ [rq])%list
    /\ cache (snd r) !! signature_key k mood cravings = Some (empty_result k)
    /\ hd_status (route aiH aiR rq) = 400%Z
    /\ hd_generated (route aiH aiR rq) = false.
Proof.
  intros Math_log k mood cravings userProfile latency aiH aiR w Hmiss rq r.
  assert (Hroute : hd_status (route aiH aiR rq) = 400%Z
                   /\ hd_generated (route aiH aiR rq) = false).
  { subst rq. destruct k; unfold route; cbn [request_of no_candidates rq_path rq_body];
      [rewrite bool_decide_eq_true_2 by reflexivity
      |rewrite bool_decide_eq_false_2 by discriminate;
       rewrite bool_decide_eq_true_2 by reflexivity];
      unfold filter_hotspots_handler, rank_restaurants_handler;
      destruct (_ || _ || _); split; reflexivity. }
  destruct Hroute as [Hst Hgen].
  assert (Hf : remote_fails (backend latency aiH aiR rq)).
  { unfold backend. cbn [remote_fails]. left. fold rq. now rewrite Hst. }
  subst r. rewrite resolve_shape. cbn [kind_of].
  replace (kind_of (no_candidates k)) with k by (destruct k; reflexivity).
  destruct (shape_falls_back (signature_key k mood cravings) rq k
              (fallback_value Math_log (no_candidates k) mood cravings)
              (backend latency aiH aiR rq) w Hmiss Hf) as [dt Heq].
  fold rq. rewrite Heq. cbn [fst snd].
  replace (fallback_value Math_log (no_candidates k) mood cravings) with (empty_result k)
    by (destruct k; reflexivity).
  repeat split; try assumption.
  cbn [cache_set cache]. apply lookup_insert_eq.
Qed.

(** The statement above for a hotspot resolution from the initial world. *)
Lemma empty_candidates_resolve_locally_witness :
  fst (resolve log_approx (no_candidates hotspot) "happy" "pizza" (Some sample_profile)
         (backend 120 NoArrayInText NoArrayInText
            (request_of (no_candidates hotspot) "happy" "pizza" (Some sample_profile)))
         initial)
  = Returned (empty_result hotspot).
Proof.
  apply (empty_candidates_resolve_locally log_approx hotspot "happy" "pizza"
           (Some sample_profile) 120 NoArrayInText NoArrayInText initial).
  vm_compute. reflexivity.
Defined.

(** C6, as worded: from the initial world, a hotspot resolution over the
    empty list does send a request to the backend. *)
Lemma empty_candidates_send_a_request :
  ~ (let r := resolve log_approx (HotspotCandidates []) "happy" "pizza"
                (Some sample_profile)
                (backend 120 NoArrayInText NoArrayInText
                   (request_of (HotspotCandidates []) "happy" "pizza"
                      (Some sample_profile)))
                initial in
     fst r = Returned (CachedHotspots []) /\ requests (snd r) = requests initial).
Proof. cbv zeta. intros [_ H]. vm_compute in H. discriminate. Qed.

(** ** Expiry and timeouts *)

Section Expiry.
Variable Math_log : N -> Q.

(** An entry stored by the fallback path has no timer: nothing that
    happens later removes it. *)
Lemma fallback_entry_stays c mood cravings userProfile remote w events :
  reachable Math_log w ->
  cache w !! signature_key (kind_of c) mood cravings = None ->
  remote_fails remote ->
  cache (run Math_log events
           (snd (resolve Math_log c mood cravings userProfile remote w)))
    !! signature_key (kind_of c) mood cravings
  = Some (fallback_value Math_log c mood cravings).
Proof.
  intros Hr Hmiss Hf. rewrite resolve_shape.
  destruct (shape_falls_back (signature_key (kind_of c) mood cravings)
              (request_of c mood cravings userProfile) (kind_of c)
              (fallback_value Math_log c mood cravings) remote w Hmiss Hf) as [dt Heq].
  rewrite Heq. cbn [snd].
  set (w1 := cache_set _ _ _).
  assert (Hheld : entry_held (signature_key (kind_of c) mood cravings)
                    (fallback_value Math_log c mood cravings)
                    (clock (run Math_log events w1) + 1) w1).
  { split; [apply lookup_insert_eq|].
    intros due H. exfalso.
    assert (Ht : timers_tracked (elapse dt (send (request_of c mood cravings userProfile) w))).
    { apply elapse_tracked. exact (reachable_tracked Math_log w Hr). }
    refine (tracked_no_timer _ _ _ Ht _ H).
    now apply elapse_lookup_None. }
  apply (run_held Math_log _ _ _ events) in Hheld; [apply Hheld|lia].
Qed.

(** An entry stored by the remote path is deleted once 300000 ms have
    passed. *)
Lemma remote_entry_expires key rq tried local remote d res v w dt :
  cache w !! key = None ->
  fetch None remote = Some (d, res) -> tried res = inr v ->
  (300000 <= dt)%N ->
  cache (elapse dt (snd (resolver_shape key rq tried local remote w))) !! key = None.
Proof.
  intros Hmiss Hfetch Htried Hdt. unfold resolver_shape.
  rewrite Hmiss, Hfetch. cbv zeta. rewrite Htried. cbn [snd].
  rewrite elapse_lookup.
  destruct (existsb _ _) eqn:E; [reflexivity|].
  exfalso. apply not_true_iff_false in E. apply E.
  apply List.existsb_exists.
  cbn [setTimeout_delete cache_set timers clock].
  eexists. split; [apply List.in_app_iff; right; left; reflexivity|].
  apply andb_true_iff. split; [apply N.leb_le; lia|now apply bool_decide_eq_true].
Qed.

End Expiry.

(** C8, at the failing input.  The entry stored after a failed request has
    no timer and is still in the cache however much time passes, whereas
    the entry stored from a remote answer is there just before 300000 ms
    and gone from then on. *)
Theorem fallback_entry_outlives_ttl :
  forall dt : N,
    timers after_failed_call = []
    /\ cache (elapse dt after_failed_call) !! hotspots_key "happy" "pizza"
       = Some (CachedHotspots [williamsburg])
    /\ timers after_remote_call = [(300050%N, hotspots_key "happy" "pizza")]
    /\ cache (elapse 299999 after_remote_call) !! hotspots_key "happy" "pizza"
       = Some (CachedHotspots [greenpoint])
    /\ cache (elapse (300000 + dt) after_remote_call) !! hotspots_key "happy" "pizza"
       = None.
Proof.
  intros dt.
  assert (H1 : timers after_failed_call = []) by (vm_compute; reflexivity).
  assert (H2 : timers after_remote_call = [(300050%N, hotspots_key "happy" "pizza")])
    by (vm_compute; reflexivity).
  assert (H3 : clock after_remote_call = 50%N) by (vm_compute; reflexivity).
  split; [exact H1|]. split; [|split; [exact H2|split]].
  - rewrite elapse_lookup, H1. cbn [existsb]. vm_compute. reflexivity.
  - vm_compute. reflexivity.
  - rewrite elapse_lookup, H2, H3. cbn [existsb].
    rewrite bool_decide_eq_true_2 by reflexivity.
    replace (300050 <=? 50 + (300000 + dt))%N with true; [reflexivity|].
    symmetry. apply N.leb_le. lia.
Qed.

(** C10, at the failing input.  A resolver's request carries no abort
    signal: when the answer takes 10000 + d ms the resolver waits for it
    and returns it instead of the local result, and when no answer ever
    comes it stays pending; the same request through [apiRequest] is
    aborted at 10000 ms and fails with status 408. *)
Theorem resolver_request_has_no_timeout :
  forall (Math_log : N -> Q) (c : Candidates) (mood cravings : string)
         (userProfile : option Profile) (allHotspots answer : list Hotspot)
         (remote : Remote) (d : N),
    let late := Responds (10000 + d) 200 (HotspotsBody answer) in
    let r := getAiFilteredHotspots Math_log mood cravings userProfile allHotspots late
               initial in
    map rq_signal
        (requests (snd (resolve Math_log c mood cravings userProfile remote initial)))
    = [false]
    /\ fst (resolve Math_log c mood cravings userProfile NeverSettles initial) = Pending
    /\ fst r = Returned (CachedHotspots answer)
    /\ clock (snd r) = (10000 + d)%N
    /\ fst (api_filterHotspots mood cravings userProfile allHotspots late initial)
       = Threw {| ae_status := 408; ae_data := None |}
    /\ clock (snd (api_filterHotspots mood cravings userProfile allHotspots late initial))
       = 10000%N.
Proof.
  intros Math_log c mood cravings userProfile allHotspots answer remote d late r.
  split; [|split].
  - rewrite resolve_shape. unfold resolver_shape. cbn [initial cache].
    rewrite lookup_empty.
    destruct (fetch None remote) as [[dt res]|]; [|destruct c; reflexivity].
    cbv zeta. destruct (tried_of (kind_of c) res); destruct c; reflexivity.
  - rewrite resolve_shape. unfold resolver_shape. cbn [initial cache].
    now rewrite lookup_empty.
  - subst r late. unfold getAiFilteredHotspots, api_filterHotspots, apiRequest.
    cbn [initial cache]. rewrite lookup_empty. cbn [fetch at_once ex_remote].
    replace (10000 <=? 10000 + d)%N with true by (symmetry; apply N.leb_le; lia).
    repeat split.
Qed.



(** An entry created at 50 ms is still served 200000 ms later, to a
    resolution with another candidate list and a silent remote end. *)
Lemma repeated_signature_hits_cache_witness :
  resolve log_approx (HotspotCandidates [greenpoint]) "happy" "pizza" None NeverSettles
    (run log_approx [Elapse 200000] after_remote_call)
  = (Returned (CachedHotspots [greenpoint]), run log_approx [Elapse 200000] after_remote_call).
Proof.
  apply (repeated_signature_hits_cache log_approx initial (HotspotCandidates [williamsburg])
           "happy" "pizza" (Some sample_profile)
           (Responds 50 200 (HotspotsBody [greenpoint]))
           (CachedHotspots [greenpoint]) after_remote_call).
  - exists []. reflexivity.
  - vm_compute. reflexivity.
  - vm_compute. reflexivity.
  - reflexivity.
  - vm_compute. reflexivity.
Defined.

(** * Further properties *)

(** ** Strings and validators *)

Lemma append_cons x (a b : string) : String x a +:+ b = String x (a +:+ b).
Proof. reflexivity. Qed.

Lemma append_nil (b : string) : EmptyString +:+ b = b.
Proof. reflexivity. Qed.

Lemma append_empty_r (s : string) : s +:+ EmptyString = s.
Proof.
  induction s as [|c s IH]; [reflexivity|].
  change (String c (s +:+ EmptyString) = String c s). now rewrite IH.
Qed.

Lemma append_assoc (a b c : string) : (a +:+ b) +:+ c = a +:+ (b +:+ c).
Proof.
  induction a as [|x a IH]; [reflexivity|].
  change (String x ((a +:+ b) +:+ c) = String x (a +:+ (b +:+ c))). now rewrite IH.
Qed.

Lemma all_chars_app p (a b : string) :
  all_chars p (a +:+ b) = all_chars p a && all_chars p b.
Proof.
  induction a as [|x a IH]; [reflexivity|].
  change (p x && all_chars p (a +:+ b) = p x && all_chars p a && all_chars p b).
  rewrite IH. now rewrite andb_assoc.
Qed.

Lemma length_truncate n s : (String.length (truncate n s) <= n)%nat.
Proof.
  unfold truncate. revert s. induction n as [|n IH]; intros [|c s]; cbn [trimStart String.append all_chars rev_string remove_chars andb negb String.length String.substring]; try lia.
  specialize (IH s). lia.
Qed.

Lemma all_chars_truncate p n s :
  all_chars p s = true -> all_chars p (truncate n s) = true.
Proof.
  unfold truncate. revert s. induction n as [|n IH]; intros [|c s]; cbn [trimStart String.append all_chars rev_string remove_chars andb negb String.length String.substring]; try reflexivity.
  intros H. apply andb_true_iff in H as [H1 H2]. rewrite H1. now apply IH.
Qed.

Lemma all_chars_remove p s :
  all_chars (fun c => negb (p c)) (remove_chars p s) = true.
Proof.
  induction s as [|c s IH]; cbn [trimStart String.append all_chars rev_string remove_chars andb negb String.length String.substring]; [reflexivity|].
  destruct (p c) eqn:E; [exact IH|]. cbn [trimStart String.append all_chars rev_string remove_chars andb negb]. now rewrite E, IH.
Qed.

Lemma rev_string_app acc a b :
  rev_string acc (a +:+ b) = rev_string (rev_string acc a) b.
Proof. revert acc. induction a as [|x a IH]; intros acc; cbn [trimStart String.append all_chars rev_string remove_chars andb negb String.length String.substring]; [reflexivity|apply IH]. Qed.

Lemma rev_string_acc acc s : rev_string acc s = rev_string EmptyString s +:+ acc.
Proof.
  revert acc. induction s as [|x s IH]; intros acc; cbn [rev_string]; [reflexivity|].
  rewrite IH, (IH (String x EmptyString)), append_assoc. reflexivity.
Qed.

Lemma all_space_rev s : all_space s -> all_space (rev_string EmptyString s).
Proof.
  unfold all_space.
  assert (H : forall acc, all_chars is_space (rev_string acc s)
                          = all_chars is_space acc && all_chars is_space s).
  { induction s as [|x s IH]; intros acc; cbn [trimStart String.append all_chars rev_string remove_chars andb negb String.length String.substring]; [now rewrite andb_true_r|].
    rewrite IH. cbn [trimStart String.append all_chars rev_string remove_chars andb negb]. destruct (is_space x), (all_chars is_space acc); reflexivity. }
  rewrite H. cbn [trimStart String.append all_chars rev_string remove_chars andb negb]. tauto.
Qed.

Lemma trimStart_space l s : all_space l -> trimStart (l +:+ s) = trimStart s.
Proof.
  unfold all_space. induction l as [|x l IH]; [reflexivity|].
  rewrite append_cons. cbn [trimStart all_chars].
  intros H. apply andb_true_iff in H as [H1 H2]. rewrite H1. now apply IH.
Qed.

Lemma trimStart_all_space r : all_space r -> trimStart r = EmptyString.
Proof.
  unfold all_space. induction r as [|x r IH]; cbn [trimStart String.append all_chars rev_string remove_chars andb negb String.length String.substring]; [reflexivity|].
  intros H. apply andb_true_iff in H as [H1 H2]. rewrite H1. now apply IH.
Qed.

Lemma trimStart_app s r :
  all_space r ->
  trimStart (s +:+ r)
  = match trimStart s with EmptyString => EmptyString | t => t +:+ r end.
Proof.
  intros Hr. induction s as [|x s IH].
  - rewrite append_nil. now apply trimStart_all_space.
  - rewrite append_cons. cbn [trimStart]. destruct (is_space x); [exact IH|reflexivity].
Qed.

Lemma trim_pad l s r :
  all_space l -> all_space r -> trim (l +:+ s +:+ r) = trim s.
Proof.
  intros Hl Hr. unfold trim.
  rewrite trimStart_space by exact Hl. rewrite trimStart_app by exact Hr.
  destruct (trimStart s) as [|c t] eqn:E; [reflexivity|].
  rewrite rev_string_app, (rev_string_acc (rev_string _ _) r).
  rewrite trimStart_space by now apply all_space_rev.
  reflexivity.
Qed.

Lemma trim_empty_length s :
  s = EmptyString -> String.length (trim s) = O.
Proof. intros ->. reflexivity. Qed.

(** X1. [sanitizeInput] never lets an angle bracket through and never
    returns more than 200 characters. *)
Theorem sanitizeInput_is_bounded_and_bracket_free :
  forall input : string,
    all_chars (fun c => negb (is_angle c)) (sanitizeInput input) = true
    /\ (String.length (sanitizeInput input) <= 200)%nat.
Proof.
  intros input. unfold sanitizeInput.
  case_bool_decide; [split; [reflexivity|cbn; lia]|].
  split; [apply all_chars_truncate, all_chars_remove|apply length_truncate].
Qed.

(** X2. White space around an input changes nothing for the validators
    and the sanitizer: they give the same answer as on the bare input. *)
Theorem validators_ignore_surrounding_space :
  forall l s r : string,
    all_space l -> all_space r ->
    let padded := l +:+ s +:+ r in
    validateName padded = validateName s
    /\ validateLocation padded = validateLocation s
    /\ validateSearchInput padded = validateSearchInput s
    /\ validateGroupName padded = validateGroupName s
    /\ validateReviewText padded = validateReviewText s
    /\ sanitizeInput padded = sanitizeInput s.
Proof.
  intros l s r Hl Hr padded.
  assert (Ht : trim padded = trim s) by now apply trim_pad.
  unfold validateName, validateLocation, validateSearchInput, validateGroupName,
    validateReviewText, sanitizeInput.
  rewrite Ht.
  destruct (bool_decide (padded = EmptyString)) eqn:Ep, (bool_decide (s = EmptyString)) eqn:Es;
    try (repeat split; reflexivity).
  - apply bool_decide_eq_true in Ep. rewrite Ep in Ht. rewrite <- Ht.
    repeat split; reflexivity.
  - apply bool_decide_eq_true in Es. subst s.
    repeat split; reflexivity.
Qed.

(** Two spaces before and a line feed after a search input. *)
Lemma validators_ignore_surrounding_space_witness :
  validateSearchInput ("  " +:+ "spicy pizza" +:+ String "010" EmptyString)
  = validateSearchInput "spicy pizza".
Proof.
  apply (validators_ignore_surrounding_space "  " "spicy pizza" (String "010" EmptyString));
    reflexivity.
Defined.

Lemma split_go_no_space skipping cur s :
  no_space cur -> Forall no_space (split_go skipping cur s).
Proof.
  revert skipping cur. induction s as [|c s IH]; intros skipping cur Hc; cbn [split_go].
  - now constructor.
  - destruct (is_space c) eqn:E.
    + destruct skipping; [|constructor; [exact Hc|]]; now apply IH.
    + apply IH. unfold no_space in *. rewrite all_chars_app, Hc. cbn [all_chars andb]. now rewrite E.
Qed.

(** X3. The tokens of a mood or craving each have more than two
    characters and hold no white space. *)
Theorem words_are_long_and_space_free :
  forall s : string,
    Forall (fun w => (2 < String.length w)%nat /\ no_space w) (words s).
Proof.
  intros s. unfold words, split_ws.
  apply List.Forall_forall. intros w Hw.
  apply List.filter_In in Hw as [Hin Hlen].
  split; [now apply Nat.ltb_lt in Hlen|].
  pose proof (split_go_no_space false EmptyString s eq_refl) as H.
  rewrite List.Forall_forall in H. now apply H.
Qed.

(** ** More on the fallback scorers *)

Lemma count_nonneg {X : Type} (l : list X) : (0 <= count l)%Q.
Proof.
  unfold count. change 0%Q with (inject_Z 0). rewrite <- Zle_Qle. lia.
Qed.

Lemma count_nonempty {X : Type} (l : list X) : nonempty l = true -> (1 <= count l)%Q.
Proof.
  destruct l as [|x l]; [discriminate|]. intros _.
  rewrite count_cons. pose proof (count_nonneg l). lra.
Qed.

Lemma nonempty_app {X : Type} (a b : list X) :
  nonempty (a ++ b) = nonempty a || nonempty b.
Proof. destruct a; reflexivity. Qed.

Lemma Qeq_bool_compat (x y : Q) : (x == y)%Q -> Qeq_bool x 0 = Qeq_bool y 0.
Proof.
  intros H. destruct (Qeq_bool y 0) eqn:E.
  - apply Qeq_bool_iff in E. apply Qeq_bool_iff. lra.
  - destruct (Qeq_bool x 0) eqn:E'; [|reflexivity].
    apply Qeq_bool_iff in E'. assert (Hy : (y == 0)%Q) by lra.
    apply Qeq_bool_iff in Hy. congruence.
Qed.

Lemma Qlt_bool_compat (x y : Q) : (x == y)%Q -> Qlt_bool 0 x = Qlt_bool 0 y.
Proof.
  intros H. unfold Qlt_bool. f_equal.
  destruct (Qle_bool y 0) eqn:E.
  - apply Qle_bool_iff in E. apply Qle_bool_iff. lra.
  - destruct (Qle_bool x 0) eqn:E'; [|reflexivity].
    apply Qle_bool_iff in E'. assert (Hy : (y <= 0)%Q) by lra.
    apply Qle_bool_iff in Hy. congruence.
Qed.

Lemma Qlt_bool_true (x : Q) : Qlt_bool 0 x = true <-> (0 < x)%Q.
Proof.
  unfold Qlt_bool. rewrite negb_true_iff. split.
  - intros H. destruct (Qlt_le_dec 0 x) as [?|Hle]; [assumption|].
    apply Qle_bool_iff in Hle. congruence.
  - intros H. destruct (Qle_bool x 0) eqn:E; [|reflexivity].
    apply Qle_bool_iff in E. lra.
Qed.

Lemma hotspot_tags_loop (cw mw : list string) tags (score : Q) :
  (foldl (fun score tag =>
            let tagLower := toLowerCase tag in
            let score :=
              foldl (fun score word =>
                       if either_includes tagLower word then score + 2 else score)
                    score cw in
            foldl (fun score word =>
                     if either_includes tagLower word then score + 1.5 else score)
                  score mw)
         score tags
   == score + 2 * count (matching_pairs tags cw) + 1.5 * count (matching_pairs tags mw))%Q.
Proof.
  revert score. induction tags as [|tag tags IH]; intros score; cbn [foldl].
  - unfold matching_pairs. cbn. rewrite !count_nil. lra.
  - rewrite IH. cbv zeta.
    rewrite (foldl_adds (fun q : Q => q)
               (fun w => either_includes (toLowerCase tag) w) (fun q _ => q + 1.5)%Q 1.5%Q)
      by (intros; reflexivity).
    rewrite (foldl_adds (fun q : Q => q)
               (fun w => either_includes (toLowerCase tag) w) (fun q _ => q + 2)%Q 2%Q)
      by (intros; reflexivity).
    rewrite !matching_pairs_cons. lra.
Qed.

(** X4. The score of a hotspot is 2 per (tag, craving word) pair in which
    one contains the other, 1.5 per such (tag, mood word) pair, 3 per
    craving word that the name contains or that contains the first piece
    of the name, 2 per mood word in the name, plus 2 above 8000 reviews or
    1 above 6000; when all that is 0 the score is a tenth of the logarithm
    of the review count (of 1 when the count is 0 or absent). *)
Theorem hotspot_score_rules :
  forall (Math_log : N -> Q) (mood cravings : string) (h : Hotspot),
    (fallback_score_of Math_log mood cravings h
     == if Qeq_bool (hotspot_sum mood cravings h) 0
        then Math_log (review_count_or_1 h) / 10
        else hotspot_sum mood cravings h)%Q.
Proof.
  intros Math_log mood cravings h. unfold fallback_score_of, hotspot_score.
  set (cw := words (toLowerCase cravings)). set (mw := words (toLowerCase mood)).
  match goal with
  | |- context [Qeq_bool ?s 0] => set (acc := s)
  end.
  assert (Hacc : (acc == hotspot_sum mood cravings h)%Q).
  { subst acc. unfold hotspot_sum, popularity_bonus. fold cw mw.
    set (tagged := match h_tags h with Some tags => _ | None => _ end).
    assert (Ht : (tagged == 2 * count (matching_pairs (hotspot_tags h) cw)
                            + 1.5 * count (matching_pairs (hotspot_tags h) mw))%Q).
    { subst tagged. unfold hotspot_tags. destruct (h_tags h) as [tags|].
      - rewrite hotspot_tags_loop. lra.
      - unfold matching_pairs. cbn. rewrite !count_nil. lra. }
    set (named :=
           foldl (fun score word =>
                    if includes (toLowerCase (h_name h)) word
                       || includes word (first_piece (toLowerCase (h_name h)))
                    then (score + 3)%Q else score) tagged cw).
    assert (Hn : (named == tagged + 3 * count (words_matching_name (h_name h) cw))%Q).
    { subst named.
      apply (foldl_adds (fun q : Q => q)
               (fun w => includes (toLowerCase (h_name h)) w
                         || includes w (first_piece (toLowerCase (h_name h))))
               (fun q _ => q + 3)%Q 3%Q). intros; reflexivity. }
    set (mooded :=
           foldl (fun score word =>
                    if includes (toLowerCase (h_name h)) word then (score + 2)%Q else score)
                 named mw).
    assert (Hm : (mooded == named + 2 * count (words_in_name (h_name h) mw))%Q).
    { subst mooded.
      apply (foldl_adds (fun q : Q => q)
               (fun w => includes (toLowerCase (h_name h)) w) (fun q _ => q + 2)%Q 2%Q).
      intros; reflexivity. }
    destruct (review_count_gt h 8000); [|destruct (review_count_gt h 6000)]; lra. }
  rewrite (Qeq_bool_compat _ _ Hacc).
  destruct (Qeq_bool (hotspot_sum mood cravings h) 0); [reflexivity|exact Hacc].
Qed.

(** A loop whose update sets the flag, and one whose update keeps it. *)
Lemma foldl_sets_flag {S B : Type} (flag : S -> bool) (p : B -> bool) (upd : S -> B -> S) :
  (forall s w, flag (upd s w) = true) ->
  forall ws s,
    flag (foldl (fun s w => if p w then upd s w else s) s ws)
    = flag s || nonempty (List.filter p ws).
Proof.
  intros Hupd ws. induction ws as [|w ws IH]; intros s; cbn [foldl List.filter].
  - now rewrite orb_false_r.
  - rewrite IH. destruct (p w); [|reflexivity].
    rewrite Hupd. cbn. now rewrite orb_true_r.
Qed.

Lemma foldl_keeps_flag {S B : Type} (flag : S -> bool) (p : B -> bool) (upd : S -> B -> S) :
  (forall s w, flag (upd s w) = flag s) ->
  forall ws s, flag (foldl (fun s w => if p w then upd s w else s) s ws) = flag s.
Proof.
  intros Hupd ws. induction ws as [|w ws IH]; intros s; cbn [foldl]; [reflexivity|].
  rewrite IH. destruct (p w); [apply Hupd|reflexivity].
Qed.

Lemma matching_pairs_nonempty_cons tag tags ws :
  nonempty (matching_pairs (tag :: tags) ws)
  = nonempty (List.filter (fun w => either_includes (toLowerCase tag) w) ws)
    || nonempty (matching_pairs tags ws).
Proof.
  unfold matching_pairs. cbn [list_prod].
  rewrite List.filter_app, nonempty_app. f_equal.
  induction ws as [|w ws IH]; [reflexivity|].
  cbn [map List.filter fst snd].
  destruct (either_includes (toLowerCase tag) w); [reflexivity|exact IH].
Qed.

Lemma score_tag_flag phrase moodWords cravingsWords st tag :
  ts_hasDirectMatch (score_tag phrase moodWords cravingsWords st tag)
  = ts_hasDirectMatch st
    || nonempty (List.filter (fun w => either_includes (toLowerCase tag) w) cravingsWords)
    || either_includes (toLowerCase tag) phrase.
Proof.
  unfold score_tag.
  rewrite (foldl_keeps_flag ts_hasDirectMatch
             (fun w => either_includes (toLowerCase tag) w)
             (fun st _ => {| ts_score := ts_score st + 1.5;
                             ts_hasDirectMatch := ts_hasDirectMatch st;
                             ts_matchedTags := push_unique tag (ts_matchedTags st) |}))
    by (intros; reflexivity).
  destruct (either_includes (toLowerCase tag) phrase); cbn [ts_hasDirectMatch].
  - now rewrite orb_true_r.
  - rewrite (foldl_sets_flag ts_hasDirectMatch
               (fun w => either_includes (toLowerCase tag) w)
               (fun st _ => {| ts_score := ts_score st + 3;
                               ts_hasDirectMatch := true;
                               ts_matchedTags := push_unique tag (ts_matchedTags st) |}))
      by (intros; reflexivity).
    now rewrite orb_false_r.
Qed.

Lemma score_tags_loop_flag phrase moodWords cravingsWords tags st :
  ts_hasDirectMatch (foldl (score_tag phrase moodWords cravingsWords) st tags)
  = ts_hasDirectMatch st
    || nonempty (matching_pairs tags cravingsWords)
    || nonempty (phrase_tags phrase tags).
Proof.
  revert st. induction tags as [|tag tags IH]; intros st; cbn [foldl].
  - unfold matching_pairs, phrase_tags. cbn. now rewrite !orb_false_r.
  - rewrite IH, score_tag_flag, matching_pairs_nonempty_cons.
    unfold phrase_tags. cbn [List.filter].
    destruct (either_includes (toLowerCase tag) phrase); cbn [nonempty];
      destruct (ts_hasDirectMatch st),
        (nonempty (List.filter (fun w => either_includes (toLowerCase tag) w) cravingsWords)),
        (nonempty (matching_pairs tags cravingsWords));
      cbn [orb]; rewrite ?orb_true_r; reflexivity.
Qed.

Lemma score_tags_flag phrase moodWords cravingsWords r st :
  ss_hasDirectMatch (score_tags phrase moodWords cravingsWords r st)
  = ss_hasDirectMatch st
    || nonempty (matching_pairs (tags_of r) cravingsWords)
    || nonempty (phrase_tags phrase (tags_of r)).
Proof.
  unfold score_tags, tags_of.
  destruct (r_tags r) as [[|t ts]|].
  - unfold matching_pairs, phrase_tags. cbn. now rewrite !orb_false_r.
  - cbn [ss_hasDirectMatch]. now rewrite score_tags_loop_flag.
  - unfold matching_pairs, phrase_tags. cbn. now rewrite !orb_false_r.
Qed.

Lemma score_name_flag phrase cravingsWords r st :
  ss_hasDirectMatch (score_name phrase cravingsWords r st)
  = ss_hasDirectMatch st
    || nonempty (words_in_name (r_name r) cravingsWords)
    || includes (toLowerCase (r_name r)) phrase.
Proof.
  unfold score_name, words_in_name.
  destruct (includes (toLowerCase (r_name r)) phrase); cbn [ss_hasDirectMatch].
  - now rewrite orb_true_r.
  - rewrite (foldl_sets_flag ss_hasDirectMatch
               (fun w => includes (toLowerCase (r_name r)) w)
               (fun st word =>
                  {| ss_score := ss_score st + 2;
                     ss_hasDirectMatch := true;
                     ss_reasoningParts :=
                       if existsb (fun p => includes p "serves") (ss_reasoningParts st)
                       then ss_reasoningParts st
                       else ss_reasoningParts st ++ ["specializes in " +:+ word] |}))
      by (intros; reflexivity).
    now rewrite orb_false_r.
Qed.

Lemma score_cuisine_flag r st :
  ss_hasDirectMatch (score_cuisine r st) = ss_hasDirectMatch st.
Proof.
  unfold score_cuisine. destruct (r_tags r); [|reflexivity].
  destruct (Qeq_bool (ss_score st) 0); [|reflexivity].
  destruct (List.filter _ _); reflexivity.
Qed.

Lemma score_matches_sum mood cravings r :
  (ss_score (score_matches mood cravings r) == matching_sum mood cravings r)%Q.
Proof.
  unfold score_matches, matching_sum, craving_words, mood_words, craving_phrase.
  rewrite score_name_score, score_tags_score. cbn [ss_score]. lra.
Qed.

Lemma matching_sum_nonneg mood cravings r : (0 <= matching_sum mood cravings r)%Q.
Proof.
  unfold matching_sum.
  pose proof (count_nonneg (matching_pairs (tags_of r) (craving_words cravings))).
  pose proof (count_nonneg (matching_pairs (tags_of r) (mood_words mood))).
  pose proof (count_nonneg (phrase_tags (craving_phrase cravings) (tags_of r))).
  pose proof (count_nonneg (words_in_name (r_name r) (craving_words cravings))).
  destruct (includes _ _); lra.
Qed.

(** X5. A restaurant is flagged as a direct match exactly when a craving
    rule fired: a (tag, craving word) pair matches, a tag matches the
    craving phrase, a craving word is in the name or the phrase is in the
    name; mood matches never set the flag.  A flagged restaurant scores at
    least 2, so the filter on the score never drops it. *)
Theorem direct_match_means_a_craving_rule_fired :
  forall (mood cravings : string) (r : Restaurant),
    let s := score_restaurant mood cravings r in
    (sc_hasDirectMatch s = true <->
       matching_pairs (tags_of r) (craving_words cravings) <> []
       \/ phrase_tags (craving_phrase cravings) (tags_of r) <> []
       \/ words_in_name (r_name r) (craving_words cravings) <> []
       \/ includes (toLowerCase (r_name r)) (craving_phrase cravings) = true)
    /\ (sc_hasDirectMatch s = true -> (2 <= sc_score s)%Q /\ positive_score s = true).
Proof.
  intros mood cravings r s.
  assert (Hflag : sc_hasDirectMatch s
                  = nonempty (matching_pairs (tags_of r) (craving_words cravings))
                    || nonempty (phrase_tags (craving_phrase cravings) (tags_of r))
                    || nonempty (words_in_name (r_name r) (craving_words cravings))
                    || includes (toLowerCase (r_name r)) (craving_phrase cravings)).
  { subst s. unfold score_restaurant. cbn [sc_hasDirectMatch].
    rewrite score_cuisine_flag. unfold score_matches.
    rewrite score_name_flag, score_tags_flag. cbn [ss_hasDirectMatch orb].
    reflexivity. }
  assert (Hne : forall X (l : list X), nonempty l = true <-> l <> []).
  { intros X [|x l]; cbn; split; congruence. }
  split.
  - rewrite Hflag, !orb_true_iff, !Hne. tauto.
  - intros Hd.
    assert (H2 : (2 <= matching_sum mood cravings r)%Q).
    { rewrite Hflag, !orb_true_iff in Hd. unfold matching_sum.
      pose proof (count_nonneg (matching_pairs (tags_of r) (craving_words cravings))).
      pose proof (count_nonneg (matching_pairs (tags_of r) (mood_words mood))).
      pose proof (count_nonneg (phrase_tags (craving_phrase cravings) (tags_of r))).
      pose proof (count_nonneg (words_in_name (r_name r) (craving_words cravings))).
      destruct Hd as [[[Hd|Hd]|Hd]|Hd].
      - apply count_nonempty in Hd. destruct (includes _ _); lra.
      - apply count_nonempty in Hd. destruct (includes _ _); lra.
      - apply count_nonempty in Hd. destruct (includes _ _); lra.
      - rewrite Hd. lra. }
    pose proof (score_matches_sum mood cravings r) as Hsum.
    assert (Hs : (sc_score s == matching_sum mood cravings r)%Q).
    { subst s. unfold score_restaurant. cbn [sc_score]. rewrite score_cuisine_score.
      destruct (Qeq_bool (ss_score (score_matches mood cravings r)) 0) eqn:E;
        [|exact Hsum].
      apply Qeq_bool_iff in E. lra. }
    split; [lra|]. unfold positive_score. apply Qlt_bool_true. lra.
Qed.

Lemma positive_score_included mood cravings r :
  positive_score (score_restaurant mood cravings r) = included mood cravings r.
Proof.
  unfold positive_score, included, score_restaurant. cbn [sc_score].
  rewrite score_cuisine_score.
  pose proof (score_matches_sum mood cravings r) as Hsum.
  pose proof (matching_sum_nonneg mood cravings r) as Hnn.
  rewrite <- (Qlt_bool_compat _ _ Hsum).
  destruct (Qeq_bool (ss_score (score_matches mood cravings r)) 0) eqn:E;
    destruct (has_food_tag r); cbn [andb].
  - now rewrite orb_true_r.
  - now rewrite orb_false_r.
  - rewrite orb_true_r. apply Qlt_bool_true.
    destruct (Qlt_le_dec 0 (ss_score (score_matches mood cravings r))) as [?|Hle];
      [assumption|].
    assert (Hz : (ss_score (score_matches mood cravings r) == 0)%Q) by lra.
    apply Qeq_bool_iff in Hz. congruence.
  - now rewrite orb_false_r.
Qed.

Lemma filter_map_comm {X Y : Type} (f : X -> Y) (p : Y -> bool) l :
  List.filter p (map f l) = map f (List.filter (fun x => p (f x)) l).
Proof.
  induction l as [|x l IH]; [reflexivity|].
  cbn [map List.filter]. destruct (p (f x)); cbn [map]; now rewrite IH.
Qed.

(** X6. The restaurant fallback returns one suggestion for each candidate
    that a matching rule scored or that has a cuisine-word tag, and for no
    other: the identifiers returned are those of these candidates, each
    as often as it occurs among them.  Every reasoning text has at most
    120 characters. *)
Theorem restaurants_fallback_keeps_the_included :
  forall (mood cravings : string) (allRestaurants : list Restaurant),
    Permutation (map sg_placeId (restaurants_fallback mood cravings allRestaurants))
                (map r_placeId (List.filter (included mood cravings) allRestaurants))
    /\ Forall (fun s => (String.length (sg_reasoning s) <= 120)%nat)
              (restaurants_fallback mood cravings allRestaurants).
Proof.
  intros mood cravings l. split.
  - unfold restaurants_fallback, rank_restaurants. fold positive_score.
    rewrite map_map.
    transitivity (map (fun s => sg_placeId (to_suggestion s))
                      (List.filter positive_score (map (score_restaurant mood cravings) l))).
    { apply Permutation_map, filter_perm, sort_perm. }
    rewrite filter_map_comm, map_map. cbn [to_suggestion sg_placeId score_restaurant sc_placeId].
    rewrite (List.filter_ext _ _ (positive_score_included mood cravings)).
    reflexivity.
  - unfold restaurants_fallback. apply List.Forall_forall. intros s Hs.
    apply List.in_map_iff in Hs as [x [<- _]].
    cbn [to_suggestion sg_reasoning]. apply length_truncate.
Qed.

(** ** More on the cache *)

Lemma prefix_append (a b : string) : String.prefix a (a +:+ b) = true.
Proof.
  induction a as [|x a IH]; [now destruct b|].
  rewrite append_cons. cbn [String.prefix].
  destruct (ascii_dec x x); [exact IH|contradiction].
Qed.

Lemma signature_key_prefix k mood cravings :
  String.prefix (match k with hotspot => "hotspots-" | restaurant => "restaurants-" end)
                (signature_key k mood cravings) = true.
Proof. destruct k; apply prefix_append. Qed.

Lemma kinds_exclusive key :
  String.prefix "hotspots-" key = true -> String.prefix "restaurants-" key = true -> False.
Proof.
  destruct key as [|c key]; [discriminate|]. cbn [String.prefix].
  destruct (ascii_dec "h" c) as [<-|]; [|discriminate].
  intros _. destruct (ascii_dec "r" "h"); discriminate.
Qed.

Lemma tried_of_kind k res v : tried_of k res = inr v -> value_of_kind k v.
Proof.
  destruct k; cbn [tried_of].
  - destruct (hotspots_try res); [discriminate|]. intros [= <-]. exact I.
  - destruct (restaurants_try res); [discriminate|]. intros [= <-]. exact I.
Qed.

Lemma value_of_kind_matches k mood cravings v :
  value_of_kind k v -> kind_matches (signature_key k mood cravings) v.
Proof.
  destruct k, v; cbn [value_of_kind kind_matches]; try contradiction; intros _;
    apply prefix_append.
Qed.

Lemma elapse_lookup_Some dt w key v :
  cache (elapse dt w) !! key = Some v -> cache w !! key = Some v.
Proof. rewrite elapse_lookup. destruct (existsb _ _); [discriminate|auto]. Qed.

Section MoreCacheFacts.
Variable Math_log : N -> Q.

Lemma fallback_value_kind c mood cravings :
  value_of_kind (kind_of c) (fallback_value Math_log c mood cravings).
Proof. destruct c; exact I. Qed.

Lemma shape_well_kinded key rq tried local remote w :
  (forall res v, tried res = inr v -> kind_matches key v) -> kind_matches key local ->
  cache_well_kinded w ->
  cache_well_kinded (snd (resolver_shape key rq tried local remote w)).
Proof.
  intros Htried Hlocal Hw. unfold resolver_shape.
  destruct (cache w !! key) eqn:Hmiss; [exact Hw|].
  destruct (fetch None remote) as [[dt res]|]; [|exact Hw].
  cbv zeta.
  assert (He : cache_well_kinded (elapse dt (send rq w))).
  { intros k v H. apply elapse_lookup_Some in H. now apply Hw. }
  destruct (tried res) as [e|x] eqn:Et; cbn [snd]; intros k v;
    cbn [setTimeout_delete cache_set cache];
    (destruct (decide (key = k)) as [<-|Hne];
     [rewrite lookup_insert_eq; intros [= <-]; eauto
     |rewrite lookup_insert_ne by exact Hne; apply He]).
Qed.

Lemma step_well_kinded w e : cache_well_kinded w -> cache_well_kinded (step Math_log w e).
Proof.
  destruct e as [dt|c mood cravings userProfile remote]; cbn [step].
  - intros Hw k v H. apply elapse_lookup_Some in H. now apply Hw.
  - rewrite resolve_shape. apply shape_well_kinded.
    + intros res v H. apply value_of_kind_matches. eapply tried_of_kind, H.
    + apply value_of_kind_matches, fallback_value_kind.
Qed.

Lemma reachable_well_kinded w : reachable Math_log w -> cache_well_kinded w.
Proof.
  intros [events ->]. unfold run.
  assert (H : cache_well_kinded initial).
  { intros k v H. cbn in H. rewrite lookup_empty in H. discriminate. }
  revert H. generalize initial. induction events as [|e events IH]; intros w H; [exact H|].
  cbn [foldl]. apply IH, step_well_kinded, H.
Qed.

Lemma elapse_in_window dt w : timers_in_window w -> timers_in_window (elapse dt w).
Proof.
  intros Hw due key H. apply elapse_timers_In in H as [H Hlt].
  apply Hw in H. rewrite elapse_clock. lia.
Qed.

Lemma shape_in_window key rq tried local remote w :
  timers_in_window w -> timers_in_window (snd (resolver_shape key rq tried local remote w)).
Proof.
  intros Hw. unfold resolver_shape.
  destruct (cache w !! key); [exact Hw|].
  destruct (fetch None remote) as [[dt res]|]; [|exact Hw].
  cbv zeta.
  assert (He : timers_in_window (elapse dt (send rq w)))
    by (apply elapse_in_window; exact Hw).
  destruct (tried res); cbn [snd]; [exact He|].
  intros due k H. cbn [setTimeout_delete cache_set timers clock] in *.
  apply List.in_app_iff in H as [H|[H|[]]]; [exact (He _ _ H)|].
  assert (due = (clock (elapse dt (send rq w)) + 300000)%N) by congruence. lia.
Qed.

Lemma reachable_in_window w : reachable Math_log w -> timers_in_window w.
Proof.
  intros [events ->]. unfold run.
  assert (H : timers_in_window initial) by (intros ? ? []).
  revert H. generalize initial. induction events as [|e events IH]; intros w H; [exact H|].
  cbn [foldl]. apply IH.
  destruct e as [dt|c mood cravings userProfile remote]; cbn [step].
  - now apply elapse_in_window.
  - rewrite resolve_shape. now apply shape_in_window.
Qed.

Lemma shape_returned_stored key rq tried local remote w v w1 :
  resolver_shape key rq tried local remote w = (Returned v, w1) ->
  cache w1 !! key = Some v.
Proof.
  unfold resolver_shape. destruct (cache w !! key) eqn:Hk.
  - intros [= <- <-]. exact Hk.
  - destruct (fetch None remote) as [[dt res]|]; [|discriminate].
    cbv zeta. destruct (tried res); intros [= <- <-]; apply lookup_insert_eq.
Qed.

Lemma shape_requests key rq tried local remote w :
  exists sent,
    requests (snd (resolver_shape key rq tried local remote w)) = (requests w ++ sent)%list
    /\ (length sent <= 1)%nat /\ Forall (fun r => r = rq) sent.
Proof.
  unfold resolver_shape. destruct (cache w !! key).
  - exists []. rewrite app_nil_r. repeat split; [cbn; lia|constructor].
  - exists [rq]. split; [|split; [cbn; lia|repeat constructor]].
    destruct (fetch None remote) as [[dt res]|]; [|reflexivity].
    cbv zeta. destruct (tried res); reflexivity.
Qed.

Lemma request_of_signal c mood cravings userProfile :
  rq_signal (request_of c mood cravings userProfile) = false.
Proof. destruct c; reflexivity. Qed.

End MoreCacheFacts.

(** X7. In every reachable world a hotspot key holds a hotspot list and a
    restaurant key holds suggestions, so a resolution always returns a
    value of its own kind, from the cache as well. *)
Theorem resolution_returns_its_kind :
  forall (Math_log : N -> Q) (w : World) (c : Candidates) (mood cravings : string)
         (userProfile : option Profile) (remote : Remote) (v : CacheValue) (w1 : World),
    reachable Math_log w ->
    resolve Math_log c mood cravings userProfile remote w = (Returned v, w1) ->
    value_of_kind (kind_of c) v.
Proof.
  intros Math_log w c mood cravings userProfile remote v w1 Hr Hres.
  assert (Hk : kind_matches (signature_key (kind_of c) mood cravings) v).
  { apply (step_well_kinded Math_log w (Resolve c mood cravings userProfile remote)
             (reachable_well_kinded Math_log w Hr)).
    cbn [step]. rewrite Hres. cbn [snd].
    rewrite resolve_shape in Hres. eapply shape_returned_stored, Hres. }
  pose proof (signature_key_prefix (kind_of c) mood cravings) as Hp.
  destruct (kind_of c), v; cbn [value_of_kind kind_matches signature_key] in *;
    try exact I; exfalso; eapply kinds_exclusive; eassumption.
Qed.

(** A cache hit on the entry left by [after_remote_call]. *)
Lemma resolution_returns_its_kind_witness :
  value_of_kind hotspot (CachedHotspots [greenpoint]).
Proof.
  apply (resolution_returns_its_kind log_approx after_remote_call
           (HotspotCandidates [williamsburg]) "happy" "pizza" None NeverSettles
           (CachedHotspots [greenpoint]) after_remote_call).
  - exists [Resolve (HotspotCandidates [williamsburg]) "happy" "pizza"
              (Some sample_profile) (Responds 50 200 (HotspotsBody [greenpoint]))].
    reflexivity.
  - vm_compute. reflexivity.
Defined.

(** X8. In every reachable world each pending deletion timer belongs to a
    key that is in the cache, no key has two timers, and every timer is
    due after now and at most 300000 ms from now: a timer never deletes an
    entry younger than the one it was set for. *)
Theorem timers_follow_their_entries :
  forall (Math_log : N -> Q) (w : World),
    reachable Math_log w -> timers_tracked w /\ timers_in_window w.
Proof.
  intros Math_log w Hr. split;
    [now apply (reachable_tracked Math_log)|now apply (reachable_in_window Math_log)].
Qed.

Lemma timers_follow_their_entries_witness :
  timers_tracked after_remote_call /\ timers_in_window after_remote_call.
Proof.
  apply (timers_follow_their_entries log_approx after_remote_call).
  exists [Resolve (HotspotCandidates [williamsburg]) "happy" "pizza"
            (Some sample_profile) (Responds 50 200 (HotspotsBody [greenpoint]))].
  reflexivity.
Defined.

(** X9. Once a resolution has fallen back, every later resolution of the
    same signature returns that local result, however much time has
    passed and whatever the candidate list and the remote end are by
    then; nothing is sent again. *)
Theorem fallback_result_is_served_forever :
  forall (Math_log : N -> Q) (w : World) (c : Candidates) (mood cravings : string)
         (userProfile : option Profile) (remote : Remote),
    reachable Math_log w ->
    cache w !! signature_key (kind_of c) mood cravings = None ->
    remote_fails remote ->
    forall (events : list Event) (c' : Candidates) (userProfile' : option Profile)
           (remote' : Remote),
      kind_of c' = kind_of c ->
      let w2 := run Math_log events
                  (snd (resolve Math_log c mood cravings userProfile remote w)) in
      resolve Math_log c' mood cravings userProfile' remote' w2
      = (Returned (fallback_value Math_log c mood cravings), w2).
Proof.
  intros Math_log w c mood cravings userProfile remote Hr Hmiss Hf
         events c' userProfile' remote' Hk w2.
  pose proof (fallback_entry_stays Math_log c mood cravings userProfile remote w events
                Hr Hmiss Hf) as Hstay.
  fold w2 in Hstay. rewrite resolve_shape, Hk. unfold resolver_shape. now rewrite Hstay.
Qed.

(** A failed resolution over no hotspots, then a day later the same query
    over the mock hotspots. *)
Lemma fallback_result_is_served_forever_witness :
  fst (resolve log_approx (HotspotCandidates [williamsburg; greenpoint]) "happy" "pizza"
         (Some sample_profile) NeverSettles
         (run log_approx [Elapse 86400000]
            (snd (resolve log_approx (HotspotCandidates []) "happy" "pizza"
                    (Some sample_profile) answers_fallback initial))))
  = Returned (CachedHotspots []).
Proof.
  rewrite (fallback_result_is_served_forever log_approx initial (HotspotCandidates [])
             "happy" "pizza" (Some sample_profile) answers_fallback).
  - reflexivity.
  - exists []. reflexivity.
  - vm_compute. reflexivity.
  - left. vm_compute. reflexivity.
  - reflexivity.
Defined.

(** X10. An entry stored from a remote answer lives for exactly 300000 ms:
    as time passes it is still in the cache before that and gone from
    then on. *)
Theorem remote_entry_lives_300000_ms :
  forall (Math_log : N -> Q) (w : World) (c : Candidates) (mood cravings : string)
         (userProfile : option Profile) (d : N) (status : Z) (body : Body)
         (v : CacheValue) (w1 : World),
    reachable Math_log w ->
    cache w !! signature_key (kind_of c) mood cravings = None ->
    response_ok status = true -> body <> Unparseable ->
    resolve Math_log c mood cravings userProfile (Responds d status body) w
    = (Returned v, w1) ->
    forall dt : N,
      cache (elapse dt w1) !! signature_key (kind_of c) mood cravings
      = if (dt <? 300000)%N then Some v else None.
Proof.
  intros Math_log w c mood cravings userProfile d status body v w1 Hr Hmiss Hok Hb Hres dt.
  rewrite resolve_shape in Hres.
  destruct (dt <? 300000)%N eqn:Hdt.
  - apply N.ltb_lt in Hdt.
    apply shape_creates in Hres;
      [|now apply (reachable_tracked Math_log)|exact Hmiss].
    apply (elapse_held _ _ _ dt) in Hres; [apply Hres|lia].
  - apply N.ltb_ge in Hdt.
    assert (Ht : exists x, tried_of (kind_of c) (FetchResponse status body) = inr x).
    { destruct (kind_of c); cbn [tried_of hotspots_try restaurants_try];
        rewrite Hok; cbn [negb]; destruct body; try contradiction; eauto. }
    destruct Ht as [x Ht].
    pose proof (remote_entry_expires (signature_key (kind_of c) mood cravings)
                  (request_of c mood cravings userProfile) (tried_of (kind_of c))
                  (fallback_value Math_log c mood cravings) (Responds d status body)
                  d (FetchResponse status body) x w dt Hmiss eq_refl Ht Hdt) as He.
    rewrite Hres in He. exact He.
Qed.

Lemma remote_entry_lives_300000_ms_witness :
  cache (elapse 299999 after_remote_call) !! signature_key hotspot "happy" "pizza"
  = Some (CachedHotspots [greenpoint]).
Proof.
  apply (remote_entry_lives_300000_ms log_approx initial (HotspotCandidates [williamsburg])
           "happy" "pizza" (Some sample_profile) 50 200 (HotspotsBody [greenpoint])
           (CachedHotspots [greenpoint]) after_remote_call).
  - exists []. reflexivity.
  - vm_compute. reflexivity.
  - reflexivity.
  - discriminate.
  - vm_compute. reflexivity.
Defined.

(** X11. Requests are only ever added to the log, at most one per
    resolution (a failed request is not retried), and none of them
    carries an abort signal. *)
Theorem one_request_per_resolution :
  forall (Math_log : N -> Q) (events : list Event) (w : World),
    exists sent,
      requests (run Math_log events w) = (requests w ++ sent)%list
      /\ (length sent <= resolutions events)%nat
      /\ Forall (fun rq => rq_signal rq = false) sent.
Proof.
  intros Math_log events. induction events as [|e events IH]; intros w.
  - exists []. rewrite app_nil_r. repeat split; [cbn; lia|constructor].
  - cbn [run foldl]. destruct (IH (step Math_log w e)) as [sent [Hs [Hl Hf]]].
    fold (run Math_log events (step Math_log w e)).
    destruct e as [dt|c mood cravings userProfile remote]; cbn [step] in *.
    + exists sent. unfold resolutions in *. cbn [List.filter]. now repeat split.
    + rewrite resolve_shape in *.
      destruct (shape_requests (signature_key (kind_of c) mood cravings)
                  (request_of c mood cravings userProfile) (tried_of (kind_of c))
                  (fallback_value Math_log c mood cravings) remote w)
        as [first [Hfirst [Hl1 Hall]]].
      exists (first ++ sent)%list. split; [|split].
      * rewrite Hs, Hfirst, app_assoc. reflexivity.
      * unfold resolutions in *. cbn [List.filter length]. rewrite length_app. lia.
      * apply Forall_app. split; [|exact Hf].
        eapply Forall_impl; [exact Hall|]. intros rq ->. apply request_of_signal.
Qed.

(** X12. The cache key joins mood and cravings with a hyphen, so two
    signatures that differ only in where the hyphen falls share one
    entry: after a resolution for (a-b, c), a resolution for (a, b-c) is
    served the value stored for the first. *)
Theorem hyphenated_signatures_share_an_entry :
  forall (Math_log : N -> Q) (c c' : Candidates) (a b cravings : string)
         (userProfile userProfile' : option Profile) (remote remote' : Remote)
         (w w1 : World) (v : CacheValue),
    kind_of c' = kind_of c ->
    resolve Math_log c (a +:+ "-" +:+ b) cravings userProfile remote w = (Returned v, w1) ->
    resolve Math_log c' a (b +:+ "-" +:+ cravings) userProfile' remote' w1
    = (Returned v, w1).
Proof.
  intros Math_log c c' a b cravings userProfile userProfile' remote remote' w w1 v Hk Hres.
  rewrite resolve_shape in Hres. apply shape_returned_stored in Hres.
  assert (Hkey : signature_key (kind_of c) a (b +:+ "-" +:+ cravings)
                 = signature_key (kind_of c) (a +:+ "-" +:+ b) cravings).
  { destruct (kind_of c); unfold signature_key, hotspots_key, restaurants_key;
      f_equal; rewrite !append_assoc; reflexivity. }
  rewrite resolve_shape, Hk, Hkey. unfold resolver_shape. now rewrite Hres.
Qed.

(** Mood "date-night" with craving "pizza", then mood "date" with craving
    "night-pizza". *)
Lemma hyphenated_signatures_share_an_entry_witness :
  fst (resolve log_approx (HotspotCandidates [greenpoint]) "date" ("night" +:+ "-" +:+ "pizza")
         None NeverSettles
         (snd (resolve log_approx (HotspotCandidates [williamsburg])
                 ("date" +:+ "-" +:+ "night") "pizza" (Some sample_profile)
                 (Rejects 50) initial)))
  = Returned (CachedHotspots [williamsburg]).
Proof.
  rewrite (hyphenated_signatures_share_an_entry log_approx
             (HotspotCandidates [williamsburg]) (HotspotCandidates [greenpoint])
             "date" "night" "pizza" (Some sample_profile) None (Rejects 50) NeverSettles
             initial _ (CachedHotspots [williamsburg])).
  - reflexivity.
  - reflexivity.
  - vm_compute. reflexivity.
Defined.

(** ** The backend and the remote path *)

Lemma existsb_false_Forall {X : Type} (f : X -> bool) (l : list X) :
  existsb f l = false <-> Forall (fun x => f x = false) l.
Proof.
  induction l as [|x l IH]; cbn [existsb].
  - split; [constructor|reflexivity].
  - rewrite orb_false_iff, Forall_cons, IH. reflexivity.
Qed.

Lemma no_missing_hotspot_tags (l : list Hotspot) :
  existsb (fun h => bool_decide (h_tags h = None)) l = false
  <-> Forall (fun x => h_tags x <> None) l.
Proof.
  rewrite existsb_false_Forall. apply Forall_iff. intros x.
  apply bool_decide_eq_false.
Qed.

Lemma no_missing_restaurant_tags (l : list Restaurant) :
  existsb (fun r => bool_decide (r_tags r = None)) l = false
  <-> Forall (fun x => r_tags x <> None) l.
Proof.
  rewrite existsb_false_Forall. apply Forall_iff. intros x.
  apply bool_decide_eq_false.
Qed.

(** Settles one case of a handler once its tests are decided; [Htags]
    relates the tag test to the candidates. *)
Ltac settle_handler_case Htags :=
  cbn [orb hd_status hd_generated hd_body body_fallback];
  (split; [auto|]);
  repeat split; intros; try discriminate; try lia; try tauto;
  try (destruct_and?; destruct_or?; try congruence; try discriminate; try lia;
       try (exfalso; tauto));
  try solve [apply Htags; reflexivity];
  try solve [exfalso; assert (true = false) by (apply Htags; tauto); discriminate];
  try solve [eexists; reflexivity];
  try solve [match goal with H : exists _, _ |- _ => destruct H; discriminate end].

Lemma filter_hotspots_handler_classes mood cravings profile hotspots ai :
  let h := filter_hotspots_handler mood cravings profile hotspots ai in
  (hd_status h = 200 \/ hd_status h = 400 \/ hd_status h = 500)%Z
  /\ (hd_status h = 400%Z <->
        mood = EmptyString \/ cravings = EmptyString \/ profile = None \/ hotspots = [])
  /\ (hd_generated h = true <->
        hd_status h <> 400%Z /\ Forall (fun x => h_tags x <> None) hotspots)
  /\ (hd_status h = 200%Z <-> hd_generated h = true /\ exists v, ai = Parsed v)
  /\ (body_fallback (hd_body h) = true <-> hd_status h = 500%Z).
Proof.
  cbv zeta. unfold filter_hotspots_handler.
  pose proof (no_missing_hotspot_tags hotspots) as Htags.
  destruct (existsb _ hotspots); repeat case_bool_decide; destruct ai;
    settle_handler_case Htags.
Qed.

Lemma rank_restaurants_handler_classes mood cravings profile restaurants ai :
  let r := rank_restaurants_handler mood cravings profile restaurants ai in
  (hd_status r = 200 \/ hd_status r = 400 \/ hd_status r = 500)%Z
  /\ (hd_status r = 400%Z <->
        mood = EmptyString \/ cravings = EmptyString \/ profile = None \/ restaurants = [])
  /\ (hd_generated r = true <->
        hd_status r <> 400%Z /\ Forall (fun x => r_tags x <> None) restaurants)
  /\ (hd_status r = 200%Z <-> hd_generated r = true /\ exists v, ai = Parsed v)
  /\ (body_fallback (hd_body r) = true <-> hd_status r = 500%Z).
Proof.
  cbv zeta. unfold rank_restaurants_handler.
  pose proof (no_missing_restaurant_tags restaurants) as Htags.
  destruct (existsb _ restaurants); repeat case_bool_decide; destruct ai;
    settle_handler_case Htags.
Qed.

(** X13. Each AI handler answers 200, 400 or 500.  It answers 400 exactly
    when mood, cravings or profile is missing or the list is empty; it
    consults the model exactly when that validation passed and every
    candidate has tags; it answers 200 exactly when it consulted the model
    and the reply parsed; and the fallback flag is set exactly on the 500
    answers. *)
Theorem handlers_classify_requests :
  forall (mood cravings : string) (profile : option Profile)
         (hotspots : list Hotspot) (restaurants : list Restaurant)
         (aiH : AiReply (list Z)) (aiR : AiReply (list Ranking)),
    let h := filter_hotspots_handler mood cravings profile hotspots aiH in
    let r := rank_restaurants_handler mood cravings profile restaurants aiR in
    ((hd_status h = 200 \/ hd_status h = 400 \/ hd_status h = 500)%Z
     /\ (hd_status h = 400%Z <->
           mood = EmptyString \/ cravings = EmptyString \/ profile = None \/ hotspots = [])
     /\ (hd_generated h = true <->
           hd_status h <> 400%Z /\ Forall (fun x => h_tags x <> None) hotspots)
     /\ (hd_status h = 200%Z <-> hd_generated h = true /\ exists v, aiH = Parsed v)
     /\ (body_fallback (hd_body h) = true <-> hd_status h = 500%Z))
    /\ ((hd_status r = 200 \/ hd_status r = 400 \/ hd_status r = 500)%Z
        /\ (hd_status r = 400%Z <->
              mood = EmptyString \/ cravings = EmptyString \/ profile = None
              \/ restaurants = [])
        /\ (hd_generated r = true <->
              hd_status r <> 400%Z /\ Forall (fun x => r_tags x <> None) restaurants)
        /\ (hd_status r = 200%Z <-> hd_generated r = true /\ exists v, aiR = Parsed v)
        /\ (body_fallback (hd_body r) = true <-> hd_status r = 500%Z)).
Proof.
  intros. split;
    [apply filter_hotspots_handler_classes|apply rank_restaurants_handler_classes].
Qed.

Lemma map_Some_omap {X Y : Type} (f : X -> option Y) (l : list X) :
  Forall (fun x => is_Some (f x)) l -> map Some (omap f l) = map f l.
Proof.
  induction 1 as [|x l [y Hy] Hl IH]; [reflexivity|].
  rewrite omap_step, Hy. cbn [map]. now rewrite IH, Hy.
Qed.

Lemma at_index_in_range {X : Type} (l : list X) i :
  index_in_range l i = true -> is_Some (at_index l i).
Proof.
  unfold index_in_range, at_index. intros H.
  apply andb_true_iff in H as [H1 H2].
  apply Z.leb_le in H1. apply Z.ltb_lt in H2.
  apply lookup_lt_is_Some. lia.
Qed.

Lemma restaurants_remote_ok mood cravings userProfile allRestaurants d status body w :
  cache w !! restaurants_key mood cravings = None ->
  response_ok status = true -> body <> Unparseable ->
  fst (getAiRankedRestaurants mood cravings userProfile allRestaurants
         (Responds d status body) w)
  = Returned (CachedSuggestions
                (map (fun r => {| sg_placeId := r_placeId (rr_restaurant r);
                                  sg_reasoning := reasoning_or_default r |})
                     (body_restaurants body))).
Proof.
  intros Hmiss Hok Hb. unfold getAiRankedRestaurants. rewrite Hmiss.
  cbn [fetch restaurants_try]. rewrite Hok. cbn [negb].
  destruct body; [contradiction| | |]; reflexivity.
Qed.

Lemma ranked_suggestions (allRestaurants : list Restaurant) (keep : list Ranking) :
  Forall (fun rk => is_Some (at_index allRestaurants (rk_index rk))) keep ->
  map Some
      (map (fun r => {| sg_placeId := r_placeId (rr_restaurant r);
                        sg_reasoning := reasoning_or_default r |})
           (omap (fun r => (fun e => {| rr_restaurant := e;
                                        rr_aiReasoning := rk_reasoning r |})
                             <$> at_index allRestaurants (rk_index r))
                 keep))
  = map (fun rk => suggestion_for rk <$> at_index allRestaurants (rk_index rk)) keep.
Proof.
  induction 1 as [|rk l [x Hx] Hl IH]; [reflexivity|].
  rewrite omap_step. cbn [map]. rewrite Hx. cbn [fmap option_fmap option_map map].
  rewrite IH. reflexivity.
Qed.

(** X14. When the request is complete, every candidate has tags and the
    model's reply parses, a resolution that missed the cache returns the
    model's ranking as the backend filtered it: for hotspots the
    candidates at the indices within range, for restaurants one
    suggestion per ranking within range, carrying the identifier of the
    candidate at that index and the model's reasoning, or "name -
    cuisine" when the reasoning is absent or empty; both in the model's
    order, repeated indices included. *)
Theorem remote_ranking_reaches_the_caller :
  forall (Math_log : N -> Q) (mood cravings : string) (profile : Profile)
         (allHotspots : list Hotspot) (allRestaurants : list Restaurant)
         (indices : list Z) (rankings : list Ranking)
         (aiH : AiReply (list Z)) (aiR : AiReply (list Ranking)) (latency : N) (w : World),
    mood <> EmptyString -> cravings <> EmptyString ->
    (allHotspots <> [] -> Forall (fun h => h_tags h <> None) allHotspots ->
     cache w !! hotspots_key mood cravings = None ->
     exists result,
       fst (getAiFilteredHotspots Math_log mood cravings (Some profile) allHotspots
              (backend latency (Parsed indices) aiR
                 (request_of (HotspotCandidates allHotspots) mood cravings (Some profile)))
              w)
       = Returned (CachedHotspots result)
       /\ map Some result
          = map (at_index allHotspots)
                (List.filter (index_in_range allHotspots) indices))
    /\ (allRestaurants <> [] -> Forall (fun r => r_tags r <> None) allRestaurants ->
        cache w !! restaurants_key mood cravings = None ->
        exists result,
          fst (getAiRankedRestaurants mood cravings (Some profile) allRestaurants
                 (backend latency aiH (Parsed rankings)
                    (request_of (RestaurantCandidates allRestaurants) mood cravings
                       (Some profile)))
                 w)
          = Returned (CachedSuggestions result)
          /\ map Some result
             = map (fun rk => suggestion_for rk <$> at_index allRestaurants (rk_index rk))
                   (List.filter (fun rk => index_in_range allRestaurants (rk_index rk))
                                rankings)).
Proof.
  intros Math_log mood cravings profile allHotspots allRestaurants indices rankings
         aiH aiR latency w Hm Hc.
  split.
  - intros Hne Htags Hmiss.
    apply no_missing_hotspot_tags in Htags.
    unfold backend, route, request_of. cbn [rq_path rq_body].
    rewrite bool_decide_eq_true_2 by reflexivity.
    unfold filter_hotspots_handler.
    rewrite !bool_decide_eq_false_2 by (assumption || discriminate).
    cbn [orb]. rewrite Htags. cbn [hd_status hd_body].
    rewrite hotspots_remote_ok by (assumption || reflexivity || discriminate).
    eexists. split; [reflexivity|]. cbn [body_hotspots].
    apply map_Some_omap. apply Forall_forall. intros i Hi.
    apply list_elem_of_In, List.filter_In in Hi as [_ Hi].
    now apply at_index_in_range.
  - intros Hne Htags Hmiss.
    apply no_missing_restaurant_tags in Htags.
    unfold backend, route, request_of. cbn [rq_path rq_body].
    rewrite bool_decide_eq_false_2 by discriminate.
    rewrite bool_decide_eq_true_2 by reflexivity.
    unfold rank_restaurants_handler.
    rewrite !bool_decide_eq_false_2 by (assumption || discriminate).
    cbn [orb]. rewrite Htags. cbn [hd_status hd_body].
    rewrite restaurants_remote_ok by (assumption || reflexivity || discriminate).
    eexists. split; [reflexivity|]. cbn [body_restaurants].
    apply ranked_suggestions.
    apply Forall_forall. intros rk Hrk.
    apply list_elem_of_In, List.filter_In in Hrk as [_ Hrk].
    now apply at_index_in_range.
Qed.

Lemma remote_ranking_reaches_the_caller_witness :
  exists result,
    fst (getAiFilteredHotspots log_approx "happy" "pizza" (Some sample_profile)
           [williamsburg; greenpoint]
           (backend 120 (Parsed [1; 7; 0; 1]%Z) NoArrayInText
              (request_of (HotspotCandidates [williamsburg; greenpoint]) "happy" "pizza"
                 (Some sample_profile)))
           initial)
    = Returned (CachedHotspots result)
    /\ map Some result
       = map (at_index [williamsburg; greenpoint])
             (List.filter (index_in_range [williamsburg; greenpoint]) [1; 7; 0; 1]%Z).
Proof.
  apply (remote_ranking_reaches_the_caller log_approx "happy" "pizza" sample_profile
           [williamsburg; greenpoint] [pronto] [1; 7; 0; 1]%Z [] NoArrayInText NoArrayInText
           120 initial).
  - discriminate.
  - discriminate.
  - discriminate.
  - repeat constructor; discriminate.
  - vm_compute. reflexivity.
Defined.

(** ** Candidate acquisition *)

Lemma underscores_replaced s : no_underscore (underscores_to_spaces s).
Proof.
  unfold no_underscore. induction s as [|c s IH]; [reflexivity|].
  cbn [underscores_to_spaces all_chars]. rewrite IH, andb_true_r.
  destruct (N_of_ascii c =? 95)%N eqn:E; [reflexivity|now rewrite E].
Qed.

Lemma tidy_take_map n (l : list string) :
  tidy_tags n (Some (take n (map underscores_to_spaces l))).
Proof.
  eexists. split; [reflexivity|]. split.
  - rewrite length_take. lia.
  - apply Forall_take, Forall_forall. intros t Ht.
    apply list_elem_of_In, List.in_map_iff in Ht as [x [<- _]]. apply underscores_replaced.
Qed.

Lemma imap_proj {X Y Z : Type} (f : nat -> X -> Y) (g : Y -> Z) (h : X -> Z) (l : list X) :
  (forall i x, g (f i x) = h x) -> map g (imap f l) = map h l.
Proof.
  revert f. induction l as [|x l IH]; intros f Hf; [reflexivity|].
  cbn [imap map]. rewrite Hf. f_equal. apply IH. intros i y. apply Hf.
Qed.

Lemma imap_index {X Y Z : Type} (g : Y -> Z) (h : nat -> Z) (l : list X) :
  forall (f : nat -> X -> Y) (k : nat),
    (forall i x, g (f i x) = h (k + i)%nat) ->
    map g (imap f l) = map h (seq k (length l)).
Proof.
  induction l as [|x l IH]; intros f k Hf; [reflexivity|].
  cbn [imap map length seq]. rewrite Hf, Nat.add_0_r. f_equal.
  apply IH. intros i y. unfold compose. rewrite Hf. f_equal. lia.
Qed.

Lemma Forall_imap {X Y : Type} (P : Y -> Prop) (f : nat -> X -> Y) (l : list X) :
  (forall i x, P (f i x)) -> Forall P (imap f l).
Proof.
  revert f. induction l as [|x l IH]; intros f Hf; [constructor|].
  cbn [imap]. constructor; [apply Hf|]. apply IH. intros i y. apply Hf.
Qed.

Lemma group_place_keys key p (m : list (string * Neighborhood)) :
  NoDup (map fst m) -> NoDup (map fst (group_place key p m)).
Proof.
  assert (Hkeys : forall m, map fst (group_place key p m)
                            = if bool_decide (key ∈ map fst m) then map fst m
                              else (map fst m ++ [key])%list).
  { clear m. induction m as [|[k data] m IH]; [reflexivity|].
    cbn [group_place map fst]. destruct (decide (k = key)) as [Ek|Ek].
    - rewrite (bool_decide_eq_true_2 (k = key)) by exact Ek. subst k. cbn [map fst].
      rewrite bool_decide_eq_true_2 by left. reflexivity.
    - rewrite (bool_decide_eq_false_2 (k = key)) by exact Ek. cbn [map fst]. rewrite IH.
      destruct (decide (key ∈ map fst m)) as [Hin|Hin].
      + rewrite !bool_decide_eq_true_2 by (assumption || now right). reflexivity.
      + rewrite !bool_decide_eq_false_2; [reflexivity| |exact Hin].
        intros H. apply elem_of_cons in H as [->|H]; [now apply Ek|now apply Hin]. }
  intros Hnd. rewrite Hkeys. case_bool_decide as E; [exact Hnd|].
  apply NoDup_app. split; [exact Hnd|]. split; [|apply NoDup_singleton].
  intros x Hx Hx'. apply list_elem_of_singleton in Hx'. subst x. now apply E.
Qed.

Lemma grouping_keys (places : list Place) (m : list (string * Neighborhood)) :
  NoDup (map fst m) ->
  NoDup (map fst (foldl (fun m p => group_place (neighborhood_of p) p m) m places)).
Proof.
  revert m. induction places as [|p places IH]; intros m H; [exact H|].
  cbn [foldl]. apply IH, group_place_keys, H.
Qed.

Lemma compare_review_count_keeps a b :
  keeps_before compare_review_count a b <-> (review_count_num b <= review_count_num a)%Q.
Proof. unfold keeps_before, compare_review_count. split; intros; lra. Qed.

Lemma StronglySorted_take {X : Type} (R : X -> X -> Prop) n (l : list X) :
  StronglySorted R l -> StronglySorted R (take n l).
Proof.
  intros H. revert n. induction H as [|x l Hl IH Hx]; intros [|n]; cbn [take];
    try constructor; [apply IH|now apply Forall_take].
Qed.

Lemma hotspot_of_entry_tidy location idx e :
  tidy_tags 5 (h_tags (hotspot_of_entry location idx e))
  /\ h_review_count (hotspot_of_entry location idx e) <> None.
Proof. split; [apply tidy_take_map|discriminate]. Qed.

(** X15. The hotspots built from a Places search are at most 15, carry
    pairwise different ids and pairwise different names, and come in
    descending order of review count; each has a review count and at most
    5 tags, none with an underscore. *)
Theorem built_hotspots_are_well_formed :
  forall (location : string) (results : list Place),
    let hotspots := places_to_hotspots location results in
    (length hotspots <= 15)%nat
    /\ NoDup (map h_id hotspots)
    /\ NoDup (map h_name hotspots)
    /\ StronglySorted (fun a b => (review_count_num b <= review_count_num a)%Q) hotspots
    /\ Forall (fun h => tidy_tags 5 (h_tags h) /\ h_review_count h <> None) hotspots.
Proof.
  intros location results hotspots. subst hotspots. unfold places_to_hotspots.
  set (m := foldl _ [] (take 40 results)).
  set (built := imap (hotspot_of_entry location) m).
  assert (Hperm : Permutation (sort compare_review_count built) built) by apply sort_perm.
  assert (Hsub : forall (X : Type) (g : Hotspot -> X),
             NoDup (map g built) -> NoDup (map g (take 15 (sort compare_review_count built)))).
  { intros X g Hnd.
    change (NoDup (g <$> take 15 (sort compare_review_count built))).
    rewrite fmap_take.
    assert (Hall : NoDup (g <$> sort compare_review_count built)).
    { eapply NoDup_Permutation_proper; [|exact Hnd]. apply Permutation_map, Hperm. }
    exact (sublist_NoDup _ _ Hall (sublist_take _ _)). }
  split; [|split; [|split; [|split]]].
  - rewrite length_take. lia.
  - apply Hsub. subst built.
    rewrite (imap_index h_id (fun i : nat => (Z.of_nat i + 1)%Z) m
               (hotspot_of_entry location) 0) by reflexivity.
    assert (Inj (=) (=) (fun i : nat => (Z.of_nat i + 1)%Z)) by (intros i j Hij; lia).
    apply (NoDup_fmap_2 (fun i : nat => (Z.of_nat i + 1)%Z)), NoDup_seq.
  - apply Hsub. subst built.
    rewrite (imap_proj (hotspot_of_entry location) h_name fst) by reflexivity.
    subst m. apply grouping_keys. constructor.
  - apply StronglySorted_take.
    eapply StronglySorted_weaken; [|apply (sort_sorted compare_review_count)].
    + intros a b. apply compare_review_count_keeps.
    + intros a b. rewrite !compare_review_count_keeps.
      destruct (Qlt_le_dec (review_count_num a) (review_count_num b)); [right|left]; lra.
    + intros a b c. rewrite !compare_review_count_keeps. intros; lra.
  - apply Forall_take. eapply Permutation_Forall; [symmetry; exact Hperm|].
    subst built. apply Forall_imap. intros i e. apply hotspot_of_entry_tidy.
Qed.

(** X16. The restaurants built from a Places search are the first 30
    places in their order, each with the identifier and name of its
    place and with at most 5 tags. *)
Theorem built_restaurants_follow_the_places :
  forall results : list Place,
    let restaurants := places_to_restaurants results in
    (length restaurants <= 30)%nat
    /\ map r_placeId restaurants = map pl_place_id (take 30 results)
    /\ map r_name restaurants = map pl_name (take 30 results)
    /\ Forall (fun r => exists tags, r_tags r = Some tags /\ (length tags <= 5)%nat)
              restaurants.
Proof.
  intros results restaurants. subst restaurants. unfold places_to_restaurants.
  split; [|split; [|split]].
  - rewrite length_map, length_take. lia.
  - rewrite map_map. reflexivity.
  - rewrite map_map. reflexivity.
  - apply Forall_forall. intros r Hr.
    apply list_elem_of_In, List.in_map_iff in Hr as [place [<- _]].
    unfold restaurant_of_place. cbn [r_tags]. eexists. split; [reflexivity|].
    assert (Ht : forall l : list string, (length (take 4 l) <= 4)%nat)
      by (intros l; rewrite length_take; lia).
    destruct (pl_types place) as [types|];
      destruct (pl_price_level place) as [[|n]|];
      rewrite ?length_app; cbn [length];
      try (specialize (Ht (map underscores_to_spaces
                             (List.filter
                                (fun t => negb (bool_decide
                                   (t ∈ ["point_of_interest"; "establishment"; "food"])))
                                types)))); lia.
Qed.

Lemma built_hotspots_tags location results :
  Forall (fun h => h_tags h <> None) (places_to_hotspots location results).
Proof.
  unfold places_to_hotspots. apply Forall_take.
  eapply Permutation_Forall; [symmetry; apply sort_perm|].
  apply Forall_imap. intros i e. discriminate.
Qed.

Lemma built_restaurants_tags results :
  Forall (fun r => r_tags r <> None) (places_to_restaurants results).
Proof.
  unfold places_to_restaurants. apply Forall_forall. intros r Hr.
  apply list_elem_of_In, List.in_map_iff in Hr as [place [<- _]]. discriminate.
Qed.

(** X17. An acquisition never returns an empty candidate list and every
    candidate it returns has tags: when the search fails or finds nothing
    the mock list stands in.  With a mood, cravings and a profile, the
    backend therefore always gets as far as consulting the model. *)
Theorem acquired_candidates_reach_the_model :
  forall (location mood cravings : string) (profile : Profile)
         (googleH googleR : PlacesOutcome)
         (aiH : AiReply (list Z)) (aiR : AiReply (list Ranking)),
    mood <> EmptyString -> cravings <> EmptyString ->
    let hotspots := getRealHotspotData location googleH in
    let restaurants := getRealRestaurantData location googleR in
    hotspots <> [] /\ restaurants <> []
    /\ Forall (fun h => h_tags h <> None) hotspots
    /\ Forall (fun r => r_tags r <> None) restaurants
    /\ hd_generated (filter_hotspots_handler mood cravings (Some profile) hotspots aiH)
       = true
    /\ hd_generated (rank_restaurants_handler mood cravings (Some profile) restaurants aiR)
       = true.
Proof.
  intros location mood cravings profile googleH googleR aiH aiR Hm Hc hotspots restaurants.
  assert (Hh : hotspots <> [] /\ Forall (fun h => h_tags h <> None) hotspots).
  { subst hotspots. unfold getRealHotspotData.
    assert (Hmock : getMockHotspotData <> []
                    /\ Forall (fun h => h_tags h <> None) getMockHotspotData)
      by (split; [discriminate|repeat constructor; discriminate]).
    destruct googleH as [| | | |results]; try exact Hmock.
    pose proof (built_hotspots_tags location results) as Hb.
    destruct (places_to_hotspots location results) as [|h l]; [exact Hmock|].
    split; [discriminate|exact Hb]. }
  assert (Hr : restaurants <> [] /\ Forall (fun r => r_tags r <> None) restaurants).
  { subst restaurants. unfold getRealRestaurantData.
    assert (Hmock : getMockGooglePlacesData location <> []
                    /\ Forall (fun r => r_tags r <> None)
                              (getMockGooglePlacesData location))
      by (split; [discriminate|repeat constructor; discriminate]).
    destruct googleR as [| | | |results]; try exact Hmock.
    pose proof (built_restaurants_tags results) as Hb.
    destruct (places_to_restaurants results) as [|r l]; [exact Hmock|].
    split; [discriminate|exact Hb]. }
  destruct Hh as [Hh1 Hh2], Hr as [Hr1 Hr2].
  repeat split; try assumption.
  - pose proof (filter_hotspots_handler_classes mood cravings (Some profile) hotspots aiH)
      as [_ [H400 [Hgen _]]].
    apply Hgen. split; [|exact Hh2].
    rewrite H400. intros [H|[H|[H|H]]]; congruence.
  - pose proof (rank_restaurants_handler_classes mood cravings (Some profile) restaurants aiR)
      as [_ [H400 [Hgen _]]].
    apply Hgen. split; [|exact Hr2].
    rewrite H400. intros [H|[H|[H|H]]]; congruence.
Qed.

Lemma acquired_candidates_reach_the_model_witness :
  hd_generated (filter_hotspots_handler "happy" "pizza" (Some sample_profile)
                  (getRealHotspotData "Brooklyn, NY" GeocodeEmpty) NoArrayInText)
  = true.
Proof.
  apply (acquired_candidates_reach_the_model "Brooklyn, NY" "happy" "pizza" sample_profile
           GeocodeEmpty SearchFails NoArrayInText NoArrayInText); discriminate.
Defined.

(** ** The service layer *)



(** The headers of a 200 answer come after 50 ms and its body 20000 ms
    later: the call returns at 20050 ms; with a body that never ends it
    stays pending. *)
Example apiRequest_slow_body :
  let slow d := {| ex_remote := Responds 50 200 (HotspotsBody [greenpoint]);
                   ex_body_after := d |} in
  apiRequest "/ai/filter-hotspots" (HotspotsPayload "happy" "pizza" None [greenpoint])
    (slow (Some 20000%N)) initial
  = (Returned (HotspotsBody [greenpoint]),
     {| cache := ∅; timers := []; clock := 20050%N;
        requests := [{| rq_path := "/ai/filter-hotspots";
                        rq_body := HotspotsPayload "happy" "pizza" None [greenpoint];
                        rq_signal := true |}] |})
  /\ fst (apiRequest "/ai/filter-hotspots"
            (HotspotsPayload "happy" "pizza" None [greenpoint]) (slow None) initial)
     = Pending.
Proof. split; reflexivity. Qed.

(** ** Edge cases of the remote path and of the ordering *)



Lemma sort_sorted_id {X : Type} (compareFn : X -> X -> Q) (l : list X) :
  StronglySorted (keeps_before compareFn) l -> sort compareFn l = l.
Proof.
  induction 1 as [|x l Hl IH Hx]; [reflexivity|].
  cbn [sort foldr]. fold (sort compareFn l). rewrite IH.
  destruct l as [|y l']; [reflexivity|]. cbn [sort_insert].
  inversion Hx as [|? ? Hxy _]; subst.
  apply Qle_bool_iff in Hxy. now rewrite Hxy.
Qed.

(** X20. Ranking is idempotent: the hotspot fallback applied to its own
    result for the same query returns that result unchanged. *)
Theorem hotspots_fallback_is_idempotent :
  forall (Math_log : N -> Q) (mood cravings : string) (allHotspots : list Hotspot),
    hotspots_fallback Math_log mood cravings
      (hotspots_fallback Math_log mood cravings allHotspots)
    = hotspots_fallback Math_log mood cravings allHotspots.
Proof.
  intros Math_log mood cravings l. rewrite !hotspots_fallback_sort.
  apply sort_sorted_id. apply sort_sorted.
  - intros a b. rewrite !by_score_desc_keeps.
    destruct (Qlt_le_dec (fallback_score_of Math_log mood cravings a)
                         (fallback_score_of Math_log mood cravings b)); [right|left]; lra.
  - intros a b c. rewrite !by_score_desc_keeps. intros; lra.
Qed.

(** ** Reconciliation, once more *)

Lemma restaurantMap_last_from (m : gmap string Restaurant) l id :
  foldl (fun m r => <[r_placeId r := r]> m) m l !! id
  = match last (List.filter (fun r => bool_decide (r_placeId r = id)) l) with
    | Some r => Some r
    | None => m !! id
    end.
Proof.
  revert m. induction l as [|x l IH]; intros m; cbn [foldl List.filter]; [reflexivity|].
  rewrite IH. case_bool_decide as E.
  - destruct (List.filter _ l) as [|y l'] eqn:El.
    + cbn [last]. subst id. apply lookup_insert_eq.
    + rewrite last_cons_cons. destruct (last (y :: l')) eqn:E'; [reflexivity|].
      apply last_None in E'. discriminate.
  - destruct (last _); [reflexivity|]. now apply lookup_insert_ne.
Qed.

Lemma same_id_same_restaurant (l : list Restaurant) x y :
  NoDup (map r_placeId l) -> In x l -> In y l -> r_placeId x = r_placeId y -> x = y.
Proof.
  induction l as [|z l IH]; cbn [map In]; intros Hnd Hx Hy Hid; [contradiction|].
  apply NoDup_cons in Hnd as [Hnotin Hnd].
  assert (Hmem : forall r, In r l -> r_placeId r ∈ map r_placeId l).
  { intros r Hr. apply list_elem_of_In. now apply List.in_map. }
  destruct Hx as [->|Hx], Hy as [->|Hy].
  - reflexivity.
  - exfalso. apply Hnotin. rewrite Hid. now apply Hmem.
  - exfalso. apply Hnotin. rewrite <- Hid. now apply Hmem.
  - now apply IH.
Qed.

Lemma restaurantMap_canonical (l : list Restaurant) r :
  NoDup (map r_placeId l) -> In r l -> restaurantMap l !! r_placeId r = Some r.
Proof.
  intros Hnd Hr. destruct (restaurantMap l !! r_placeId r) as [x|] eqn:E.
  - apply restaurantMap_Some in E as [Hx Hid]. f_equal.
    now apply (same_id_same_restaurant l).
  - apply restaurantMap_None in E. exfalso. apply E. now apply List.in_map.
Qed.

(** X21. When two candidates share an identifier, the lookup table of
    [handleSearch] holds the later one: a lookup returns the last
    candidate with that identifier, and nothing when there is none. *)
Theorem restaurantMap_keeps_the_last :
  forall (allRestaurants : list Restaurant) (id : string),
    restaurantMap allRestaurants !! id
    = last (List.filter (fun r => bool_decide (r_placeId r = id)) allRestaurants).
Proof.
  intros l id. unfold restaurantMap. rewrite restaurantMap_last_from.
  destruct (last _); [reflexivity|apply lookup_empty].
Qed.

(** X22. With pairwise different identifiers in the candidate list, the
    local ranking followed by the join of [handleSearch] delivers exactly
    the candidates that a matching rule scored or that have a cuisine-word
    tag, each once. *)
Theorem fallback_then_join_delivers_the_included :
  forall (mood cravings : string) (allRestaurants : list Restaurant),
    NoDup (map r_placeId allRestaurants) ->
    Permutation
      (filteredRestaurants (restaurants_fallback mood cravings allRestaurants) allRestaurants)
      (List.filter (included mood cravings) allRestaurants).
Proof.
  intros mood cravings l Hnd.
  unfold filteredRestaurants, restaurants_fallback, rank_restaurants. fold positive_score.
  set (look := fun s => restaurantMap l !! sg_placeId s).
  transitivity (omap look (map to_suggestion
                             (List.filter positive_score
                                (map (score_restaurant mood cravings) l)))).
  { apply omap_Permutation, Permutation_map, filter_perm, sort_perm. }
  rewrite filter_map_comm, map_map.
  rewrite (List.filter_ext _ _ (positive_score_included mood cravings)).
  assert (Hsub : forall k, (forall r, In r k -> In r l) ->
            omap look (map (fun r => to_suggestion (score_restaurant mood cravings r))
                           (List.filter (included mood cravings) k))
            = List.filter (included mood cravings) k).
  { induction k as [|r k IH]; intros Hk; [reflexivity|].
    cbn [List.filter]. destruct (included mood cravings r).
    - cbn [map]. rewrite omap_step. unfold look at 1.
      cbn [to_suggestion sg_placeId score_restaurant sc_placeId].
      rewrite (restaurantMap_canonical l r Hnd) by (apply Hk; now left).
      f_equal. apply IH. intros x Hx. apply Hk. now right.
    - apply IH. intros x Hx. apply Hk. now right. }
  rewrite Hsub by auto. reflexivity.
Qed.

(** The mock restaurants, mood "happy", craving "pizza". *)
Lemma fallback_then_join_delivers_the_included_witness :
  Permutation
    (filteredRestaurants (restaurants_fallback "happy" "pizza" (getMockGooglePlacesData "Brooklyn, NY"))
                         (getMockGooglePlacesData "Brooklyn, NY"))
    (List.filter (included "happy" "pizza") (getMockGooglePlacesData "Brooklyn, NY")).
Proof.
  apply (fallback_then_join_delivers_the_included "happy" "pizza" (getMockGooglePlacesData "Brooklyn, NY")).
  apply (bool_decide_unpack (NoDup (map r_placeId (getMockGooglePlacesData "Brooklyn, NY")))).
  vm_compute. exact I.
Defined.
